(** * util.c of Robot-Automation: timer-driven delay, input readers and
      stepper sequencer of an ATmega128 board, embedded in Rocq.

    The C file is translated function by function.  Memory-mapped registers
    and the C statics/globals become fields of one record that is threaded
    through the functions.  The timer-2 compare interrupt is asynchronous:
    its interleaving with the busy-wait loop of [wait_ms] is given by a
    schedule of events carried in the state. *)

From Stdlib Require Import ZArith List Bool Lia.
Import ListNotations.
Local Open Scope Z_scope.

(** ** Machine integers *)

Module Int.

(** [uint8_t] and every 8-bit I/O register. *)
Definition uint8 (z : Z) : Z := z mod 256.

(** [unsigned int] on AVR is 16 bits wide. *)
Definition uint16 (z : Z) : Z := z mod 65536.

(** [int8_t] and [char] (signed on avr-gcc). *)
Definition int8 (z : Z) : Z := (z + 128) mod 256 - 128.

(** [int] on AVR is 16 bits wide, two's complement. *)
Definition int16 (z : Z) : Z := (z + 32768) mod 65536 - 32768.

End Int.
Import Int.

(** ** Environment and machine state *)

(** One entry of the interleaving seen by the main line while it spins in
    [wait_ms]: either the timer-2 compare match fires, or the main line
    evaluates the loop condition [timer2_tick < time_val] once. *)
Inductive event : Type :=
| Irq
| Poll.

(** Ghost journal of the timer-related calls, most recent first.  It has no
    counterpart in the C code and is never read by it. *)
Inductive call : Type :=
| CallWaitMs (time_val : Z)
| CallTimer2Start (unit : Z)
| CallTimer2Stop.

Record mcu : Type := mk_mcu {
  OCR2 : Z;                 (* timer 2 output compare register *)
  TCCR2 : Z;                (* timer 2 control register *)
  TIMSK : Z;                (* timer interrupt mask, bit 7 = OCIE2 *)
  SREG_I : bool;            (* global interrupt enable flag *)
  DDRC : Z;
  PORTC : Z;
  DDRE : Z;
  PORTE : Z;
  timer2_tick : Z;          (* volatile unsigned int timer2_tick *)
  old_value : Z;            (* static int8_t old_value in read_shaft_encoder *)
  coil_position : Z;        (* static int coil_position in move_stepper_motor_by_step *)
  pending : list event;     (* future interleaving of interrupt and polls *)
  journal : list call       (* ghost *)
}.

Definition set_OCR2 (v : Z) (s : mcu) : mcu :=
  mk_mcu v (TCCR2 s) (TIMSK s) (SREG_I s) (DDRC s) (PORTC s) (DDRE s) (PORTE s)
         (timer2_tick s) (old_value s) (coil_position s) (pending s) (journal s).
Definition set_TCCR2 (v : Z) (s : mcu) : mcu :=
  mk_mcu (OCR2 s) v (TIMSK s) (SREG_I s) (DDRC s) (PORTC s) (DDRE s) (PORTE s)
         (timer2_tick s) (old_value s) (coil_position s) (pending s) (journal s).
Definition set_TIMSK (v : Z) (s : mcu) : mcu :=
  mk_mcu (OCR2 s) (TCCR2 s) v (SREG_I s) (DDRC s) (PORTC s) (DDRE s) (PORTE s)
         (timer2_tick s) (old_value s) (coil_position s) (pending s) (journal s).
Definition set_SREG_I (v : bool) (s : mcu) : mcu :=
  mk_mcu (OCR2 s) (TCCR2 s) (TIMSK s) v (DDRC s) (PORTC s) (DDRE s) (PORTE s)
         (timer2_tick s) (old_value s) (coil_position s) (pending s) (journal s).
Definition set_DDRC (v : Z) (s : mcu) : mcu :=
  mk_mcu (OCR2 s) (TCCR2 s) (TIMSK s) (SREG_I s) v (PORTC s) (DDRE s) (PORTE s)
         (timer2_tick s) (old_value s) (coil_position s) (pending s) (journal s).
Definition set_PORTC (v : Z) (s : mcu) : mcu :=
  mk_mcu (OCR2 s) (TCCR2 s) (TIMSK s) (SREG_I s) (DDRC s) v (DDRE s) (PORTE s)
         (timer2_tick s) (old_value s) (coil_position s) (pending s) (journal s).
Definition set_DDRE (v : Z) (s : mcu) : mcu :=
  mk_mcu (OCR2 s) (TCCR2 s) (TIMSK s) (SREG_I s) (DDRC s) (PORTC s) v (PORTE s)
         (timer2_tick s) (old_value s) (coil_position s) (pending s) (journal s).
Definition set_PORTE (v : Z) (s : mcu) : mcu :=
  mk_mcu (OCR2 s) (TCCR2 s) (TIMSK s) (SREG_I s) (DDRC s) (PORTC s) (DDRE s) v
         (timer2_tick s) (old_value s) (coil_position s) (pending s) (journal s).
Definition set_timer2_tick (v : Z) (s : mcu) : mcu :=
  mk_mcu (OCR2 s) (TCCR2 s) (TIMSK s) (SREG_I s) (DDRC s) (PORTC s) (DDRE s) (PORTE s)
         v (old_value s) (coil_position s) (pending s) (journal s).
Definition set_old_value (v : Z) (s : mcu) : mcu :=
  mk_mcu (OCR2 s) (TCCR2 s) (TIMSK s) (SREG_I s) (DDRC s) (PORTC s) (DDRE s) (PORTE s)
         (timer2_tick s) v (coil_position s) (pending s) (journal s).
Definition set_coil_position (v : Z) (s : mcu) : mcu :=
  mk_mcu (OCR2 s) (TCCR2 s) (TIMSK s) (SREG_I s) (DDRC s) (PORTC s) (DDRE s) (PORTE s)
         (timer2_tick s) (old_value s) v (pending s) (journal s).
Definition set_pending (v : list event) (s : mcu) : mcu :=
  mk_mcu (OCR2 s) (TCCR2 s) (TIMSK s) (SREG_I s) (DDRC s) (PORTC s) (DDRE s) (PORTE s)
         (timer2_tick s) (old_value s) (coil_position s) v (journal s).
Definition note (c : call) (s : mcu) : mcu :=
  mk_mcu (OCR2 s) (TCCR2 s) (TIMSK s) (SREG_I s) (DDRC s) (PORTC s) (DDRE s) (PORTE s)
         (timer2_tick s) (old_value s) (coil_position s) (pending s) (c :: journal s).

(** Sequencing of calls that may still be spinning when the schedule ends. *)
Definition bind {A B : Type} (m : option A) (k : A -> option B) : option B :=
  match m with
  | Some a => k a
  | None => None
  end.
Notation "x <- m ;; k" := (bind m (fun x => k))
  (at level 61, m at next level, right associativity).

(** ** Timer driver (util.c, lines 15-60) *)

(** [void timer2_start(char unit)] *)
Definition timer2_start (unit : Z) (s : mcu) : mcu :=
  let s := note (CallTimer2Start unit) s in
  let s := set_timer2_tick 0 s in
  let s := if unit =? 0
           then (* TCCR2=0b00001011; TIMSK|=0b10000000; *)
                set_TIMSK (uint8 (Z.lor (TIMSK s) 0x80)) (set_TCCR2 0x0B s)
           else s in
  let s := if unit =? 1
           then (* TCCR2=0b00001001; TIMSK|=0b10000000; *)
                set_TIMSK (uint8 (Z.lor (TIMSK s) 0x80)) (set_TCCR2 0x09 s)
           else s in
  set_SREG_I true s.

(** [void timer2_stop()] *)
Definition timer2_stop (s : mcu) : mcu :=
  let s := note CallTimer2Stop s in
  let s := set_TIMSK (uint8 (Z.land (TIMSK s) (Z.lnot 0x80))) s in
  set_TCCR2 (uint8 (Z.land (TCCR2 s) 0x7F)) s.

(** [ISR (TIMER2_COMP_vect)]: the handler body. *)
Definition ISR_TIMER2_COMP (s : mcu) : mcu :=
  set_timer2_tick (uint16 (timer2_tick s + 1)) s.

(** A compare match reaches the handler only when OCIE2 (TIMSK bit 7) and the
    global interrupt flag are both set. *)
Definition irq_step (s : mcu) : mcu :=
  if Z.testbit (TIMSK s) 7 && SREG_I s then ISR_TIMER2_COMP s else s.

(** The loop [while(timer2_tick < time_val);] run against a schedule.  [None]
    means the main line is still spinning when the schedule ends. *)
Fixpoint busy_wait (time_val : Z) (sched : list event) (s : mcu) : option mcu :=
  match sched with
  | [] => None
  | Irq :: rest => busy_wait time_val rest (irq_step s)
  | Poll :: rest =>
      if timer2_tick s <? time_val
      then busy_wait time_val rest s
      else Some (set_pending rest s)
  end.

(** [void wait_ms(unsigned int time_val)] *)
Definition wait_ms (time_val : Z) (s : mcu) : option mcu :=
  let s := note (CallWaitMs time_val) s in
  let s := set_OCR2 250 s in
  let s := set_timer2_tick 0 s in
  let s := timer2_start 0 s in
  s <- busy_wait time_val (pending s) s ;;
  Some (timer2_stop s).

(** ** Digital input readers (util.c, lines 65-124) *)

(** [void init_push_buttons(void)] *)
Definition init_push_buttons (s : mcu) : mcu :=
  let s := set_DDRC (uint8 (Z.land (DDRC s) 0xC0)) s in
  set_PORTC (uint8 (Z.lor (PORTC s) 0x3F)) s.

(** The [for (shift = 5; shift > -1; shift--)] loop of [read_push_buttons],
    entered with [shift = n - 1]; the result is the value of [shift] when the
    loop is left.  [PINC] is a volatile input register that is read afresh in
    every iteration: [pinc k] is the level sampled in the iteration whose
    [shift] is [k]. *)
Fixpoint scan_buttons (pinc : Z -> Z) (n : nat) : Z :=
  match n with
  | O => -1
  | S k =>
      let shift := Z.of_nat k in
      if Z.land (Z.shiftr (uint8 (pinc shift)) shift) 0x01 =? 0
      then shift
      else scan_buttons pinc k
  end.

(** [uint8_t read_push_buttons(void)] *)
Definition read_push_buttons (pinc : Z -> Z) : Z :=
  let shift := scan_buttons pinc 6 in
  uint8 (shift + 1).

(** [void shaft_encoder_init(void)] *)
Definition shaft_encoder_init (s : mcu) : mcu :=
  let s := set_DDRC (uint8 (Z.land (DDRC s) 0x3F)) s in
  set_PORTC (uint8 (Z.lor (PORTC s) 0xC0)) s.

(** [int8_t read_shaft_encoder(void)]; [pinc] is the one sample of [PINC]
    taken by the call.  Returns the rotation and the new state. *)
Definition read_shaft_encoder (pinc : Z) (s : mcu) : Z * mcu :=
  let new_value := int8 (Z.shiftr (uint8 pinc) 6) in
  let rotation := 0 in
  let rotation :=
    if old_value s =? 0x03 then
      let rotation := if new_value =? 0x01 then 1 else rotation in
      let rotation := if new_value =? 0x02 then -1 else rotation in
      rotation
    else rotation in
  let s := set_old_value new_value s in
  (rotation, s).

(** ** Stepper sequencer (util.c, lines 128-177) *)

(** [void stepper_init(void)] *)
Definition stepper_init (s : mcu) : option mcu :=
  let s := set_DDRE (uint8 (Z.lor (DDRE s) 0xF0)) s in
  let s := set_PORTE (uint8 (Z.land (PORTE s) 0x8F)) s in
  s <- wait_ms 2 s ;;
  Some (set_PORTE (uint8 (Z.land (PORTE s) 0x0F)) s).

(** Coil update of the clockwise loop body (lines 151-155). *)
Definition advance_cw (coil : Z) : Z :=
  if coil =? 0x8 then 0x1 else int16 (Z.shiftl coil 1).

(** Coil update of the counterclockwise loop body (lines 164-168). *)
Definition advance_ccw (coil : Z) : Z :=
  if coil =? 0x1 then 0x8 else Z.shiftr coil 1.

(** [PORTE &= 0x0F; full_byte=coil_position << 4; PORTE |= full_byte;] *)
Definition drive_coils (s : mcu) : mcu :=
  let s := set_PORTE (uint8 (Z.land (PORTE s) 0x0F)) s in
  let full_byte := int8 (Z.shiftl (coil_position s) 4) in
  set_PORTE (uint8 (Z.lor (PORTE s) full_byte)) s.

(** One iteration of either loop: advance, drive the pins, [wait_ms(2)]. *)
Definition step_once (advance : Z -> Z) (s : mcu) : option mcu :=
  let s := set_coil_position (advance (coil_position s)) s in
  let s := drive_coils s in
  wait_ms 2 s.

(** [for(i=...;i<num_steps;i++) body].  The counter never overflows since
    [i < num_steps] holds before each increment.  [fuel] bounds the number
    of iterations; [None] when it is used up or when [body] does not return. *)
Fixpoint for_loop (fuel : nat) (i num_steps : Z) (body : mcu -> option mcu)
         (s : mcu) : option mcu :=
  if i <? num_steps then
    match fuel with
    | O => None
    | S fuel' => s' <- body s ;; for_loop fuel' (i + 1) num_steps body s'
    end
  else Some s.

(** [void move_stepper_motor_by_step(int num_steps, int direction)] *)
Definition move_stepper_motor_by_step (num_steps direction : Z) (s : mcu)
  : option mcu :=
  s <- (if direction =? 1 then
          for_loop (Z.to_nat num_steps) 0 num_steps (step_once advance_cw) s
        else if direction =? -1 then
          for_loop (Z.to_nat num_steps) 0 num_steps (step_once advance_ccw) s
        else Some s) ;;
  Some (set_PORTE (uint8 (Z.land (PORTE s) 0x0F)) s).

(** ** Power-on state and the calls an application can make *)

(** What the C initialisers establish before [main] runs:
    [coil_position=0b0001], [old_value = 0x03], and the zero-initialised
    global [timer2_tick].  Nothing is assumed about the I/O registers. *)
Definition initialised (s : mcu) : Prop :=
  timer2_tick s = 0 /\ old_value s = 0x03 /\ coil_position s = 0x1.

(** A concrete initialised state: I/O registers zero, interrupts disabled,
    and an interleaving [sched] still to come. *)
Definition power_on (sched : list event) : mcu :=
  mk_mcu 0 0 0 false 0 0 0 0 0 0x03 0x1 sched [].

Inductive api : Type :=
| ApiWaitMs (time_val : Z)
| ApiTimer2Start (unit : Z)
| ApiTimer2Stop
| ApiInitPushButtons
| ApiShaftEncoderInit
| ApiReadShaftEncoder (pinc : Z)
| ApiStepperInit
| ApiMove (num_steps direction : Z).

Definition exec (c : api) (s : mcu) : option mcu :=
  match c with
  | ApiWaitMs time_val => wait_ms time_val s
  | ApiTimer2Start unit => Some (timer2_start unit s)
  | ApiTimer2Stop => Some (timer2_stop s)
  | ApiInitPushButtons => Some (init_push_buttons s)
  | ApiShaftEncoderInit => Some (shaft_encoder_init s)
  | ApiReadShaftEncoder pinc => Some (snd (read_shaft_encoder pinc s))
  | ApiStepperInit => stepper_init s
  | ApiMove num_steps direction => move_stepper_motor_by_step num_steps direction s
  end.

(** States the firmware can be in: any initialised state, then any sequence of
    calls that return, the environment being free to supply any further
    interleaving between calls. *)
Inductive reachable : mcu -> Prop :=
| reach_initialised : forall s, initialised s -> reachable s
| reach_call : forall c s s', reachable s -> exec c s = Some s' -> reachable s'
| reach_env : forall sched s, reachable s -> reachable (set_pending sched s).

(** ** Vocabulary of the specification *)

(** The four coil positions 0001, 0010, 0100, 1000. *)
Definition one_hot4 (c : Z) : Prop := c = 1 \/ c = 2 \/ c = 4 \/ c = 8.

(** Rotation of a 4-bit pattern by one position with wraparound, as the
    specification words the transition (not taken from the C code). *)
Definition rotate_left4 (c : Z) : Z :=
  Z.land (Z.lor (Z.shiftl c 1) (Z.shiftr c 3)) 0xF.
Definition rotate_right4 (c : Z) : Z :=
  Z.land (Z.lor (Z.shiftr c 1) (Z.shiftl c 3)) 0xF.

(** Number of compare matches in a schedule. *)
Fixpoint count_irq (sched : list event) : Z :=
  match sched with
  | [] => 0
  | Irq :: rest => 1 + count_irq rest
  | Poll :: rest => count_irq rest
  end.

(** The main line polls faster than the timer period: every compare match
    is directly followed by an evaluation of the loop condition. *)
Fixpoint prompt (sched : list event) : bool :=
  match sched with
  | [] => true
  | Poll :: rest => prompt rest
  | Irq :: rest =>
      match rest with
      | Poll :: _ => prompt rest
      | _ => false
      end
  end.

(** [k] periods of a regular schedule: compare match, then one poll. *)
Fixpoint steady (k : nat) : list event :=
  match k with
  | O => []
  | S k' => Irq :: Poll :: steady k'
  end.

(** The state in which [wait_ms] enters its loop. *)
Definition armed (time_val : Z) (s : mcu) : mcu :=
  timer2_start 0 (set_timer2_tick 0 (set_OCR2 250 (note (CallWaitMs time_val) s))).

(** Active-low button [k] is pressed in the sample [pinc]. *)
Definition pressed (pinc : Z) (k : Z) : Prop := Z.testbit pinc k = false.

(** Coil update selected by [direction]: the two branches of
    [move_stepper_motor_by_step], and no update on the fall-through path. *)
Definition advance (direction : Z) : Z -> Z :=
  if direction =? 1 then advance_cw
  else if direction =? -1 then advance_ccw
  else fun coil => coil.

(** [k] successive calls [move_stepper_motor_by_step(1, direction)], with the
    coil position observed after each call. *)
Fixpoint single_steps (k : nat) (direction : Z) (s : mcu)
  : option (list Z * mcu) :=
  match k with
  | O => Some ([], s)
  | S k' =>
      s1 <- move_stepper_motor_by_step 1 direction s ;;
      r <- single_steps k' direction s1 ;;
      Some (coil_position s1 :: fst r, snd r)
  end.

(** The first [k] iterates of [f] from [c], [c] itself excluded. *)
Fixpoint orbit (k : nat) (f : Z -> Z) (c : Z) : list Z :=
  match k with
  | O => []
  | S k' => f c :: orbit k' f (f c)
  end.

(** Number of loop iterations of [move_stepper_motor_by_step]: [num_steps]
    when that is positive and the direction is +1 or -1, none otherwise. *)
Definition step_count (num_steps direction : Z) : nat :=
  if (direction =? 1) || (direction =? -1) then Z.to_nat num_steps else O.

(** Journal entries left by one [wait_ms(2)], most recent first. *)
Definition wait2_calls : list call :=
  [CallTimer2Stop; CallTimer2Start 0; CallWaitMs 2].

(** * Properties *)

(** ** Bit-level facts about the register updates *)

Lemma land_15_mod p : Z.land p 0xF = p mod 16.
Proof. change 0xF with (Z.ones 4). rewrite Z.land_ones by lia. reflexivity. Qed.

Lemma land_15_range p : 0 <= Z.land p 0xF < 16.
Proof. rewrite land_15_mod. apply Z.mod_pos_bound. lia. Qed.

Lemma uint8_small z : 0 <= z < 256 -> uint8 z = z.
Proof. intros H. unfold uint8. apply Z.mod_small. exact H. Qed.

Lemma uint8_testbit z n : 0 <= n < 8 -> Z.testbit (uint8 z) n = Z.testbit z n.
Proof.
  intros H. unfold uint8. change 256 with (2 ^ 8).
  rewrite Z.mod_pow2_bits_low by lia. reflexivity.
Qed.

Lemma high_nibble_cleared p : Z.land (uint8 (Z.land p 0x0F)) 0xF0 = 0.
Proof.
  rewrite uint8_small by (pose proof (land_15_range p); lia).
  rewrite land_15_mod. apply Z.bits_inj'. intros n Hn.
  rewrite Z.land_spec, Z.bits_0. change 16 with (2 ^ 4).
  destruct (Z.ltb_spec n 4) as [Hlt | Hge].
  - assert (n = 0 \/ n = 1 \/ n = 2 \/ n = 3) as [-> | [-> | [-> | ->]]] by lia;
      rewrite Bool.andb_false_r; reflexivity.
  - rewrite Z.mod_pow2_bits_high by lia. reflexivity.
Qed.

Lemma ocie2_set x : Z.testbit (uint8 (Z.lor x 0x80)) 7 = true.
Proof.
  rewrite uint8_testbit by lia. rewrite Z.lor_spec.
  apply Bool.orb_true_r.
Qed.

Lemma ocie2_cleared x : Z.testbit (uint8 (Z.land x (Z.lnot 0x80))) 7 = false.
Proof.
  rewrite uint8_testbit by lia. rewrite Z.land_spec.
  apply Bool.andb_false_r.
Qed.

(** ** The busy-wait loop *)

Lemma set_timer2_tick_twice t t' s :
  set_timer2_tick t (set_timer2_tick t' s) = set_timer2_tick t s.
Proof. reflexivity. Qed.

Lemma count_irq_app l1 l2 : count_irq (l1 ++ l2) = count_irq l1 + count_irq l2.
Proof.
  induction l1 as [| [|] l1 IH]; cbn [count_irq app]; lia.
Qed.

Lemma count_irq_nonneg l : 0 <= count_irq l.
Proof. induction l as [| [|] l IH]; cbn [count_irq]; lia. Qed.

Lemma count_irq_steady k : count_irq (steady k) = Z.of_nat k.
Proof. induction k as [| k IH]; cbn [steady count_irq]; lia. Qed.

Lemma prompt_steady k : prompt (steady k) = true.
Proof. induction k as [| k IH]; cbn [steady prompt]; auto. Qed.

(** A compare match changes the tick counter only, by at most one. *)
Lemma irq_step_tick s :
  0 <= timer2_tick s ->
  exists t, irq_step s = set_timer2_tick t s /\ 0 <= t <= timer2_tick s + 1.
Proof.
  intros H. unfold irq_step.
  destruct (Z.testbit (TIMSK s) 7 && SREG_I s).
  - exists (uint16 (timer2_tick s + 1)). split; [reflexivity |].
    unfold uint16.
    pose proof (Z.mod_pos_bound (timer2_tick s + 1) 65536 ltac:(lia)).
    pose proof (Z.mod_le (timer2_tick s + 1) 65536 ltac:(lia) ltac:(lia)).
    lia.
  - exists (timer2_tick s). split; [destruct s; reflexivity | lia].
Qed.

(** When the loop is left the counter is not below [time_val], only the
    counter and the schedule have changed, and the consumed part of the
    schedule holds at least as many compare matches as the counter gained. *)
Lemma busy_wait_inv time_val :
  forall sched s s',
    0 <= timer2_tick s ->
    busy_wait time_val sched s = Some s' ->
    exists t used rest,
      s' = set_pending rest (set_timer2_tick t s) /\
      sched = used ++ rest /\
      time_val <= t /\ 0 <= t <= timer2_tick s + count_irq used.
Proof.
  induction sched as [| [|] sched IH]; intros s s' Hpos Hrun; cbn [busy_wait] in Hrun.
  - discriminate.
  - destruct (irq_step_tick s Hpos) as (t0 & Heq & Ht0).
    rewrite Heq in Hrun.
    apply IH in Hrun; [| cbn; lia].
    destruct Hrun as (t & used & rest & -> & -> & Hle & Hbound).
    exists t, (Irq :: used), rest. cbn [timer2_tick set_timer2_tick] in Hbound.
    rewrite set_timer2_tick_twice. cbn [count_irq app].
    repeat split; try reflexivity; lia.
  - destruct (Z.ltb_spec (timer2_tick s) time_val) as [Hlt | Hge].
    + apply IH in Hrun; [| exact Hpos].
      destruct Hrun as (t & used & rest & -> & -> & Hle & Hbound).
      exists t, (Poll :: used), rest. cbn [count_irq app].
      repeat split; try reflexivity; lia.
    + injection Hrun as <-.
      exists (timer2_tick s), [Poll], sched. cbn [count_irq app].
      repeat split; lia.
Qed.

(** With interrupts enabled and prompt polling the loop is left at the poll
    that follows the compare match on which the counter reaches [time_val]. *)
Lemma busy_wait_prompt time_val :
  forall sched s,
    Z.testbit (TIMSK s) 7 = true -> SREG_I s = true ->
    0 <= timer2_tick s < time_val -> time_val < 65536 ->
    prompt sched = true ->
    time_val - timer2_tick s <= count_irq sched ->
    exists used rest,
      busy_wait time_val sched s
        = Some (set_pending rest (set_timer2_tick time_val s)) /\
      sched = used ++ rest /\
      count_irq used = time_val - timer2_tick s /\
      prompt rest = true.
Proof.
  induction sched as [| [|] sched IH]; intros s Hie Hgi Htick Hmax Hp Hcnt.
  - cbn [count_irq] in Hcnt. lia.
  - cbn [count_irq] in Hcnt. cbn [busy_wait].
    assert (Hstep : irq_step s = set_timer2_tick (timer2_tick s + 1) s).
    { unfold irq_step. rewrite Hie, Hgi. cbn [andb]. unfold ISR_TIMER2_COMP, uint16.
      rewrite Z.mod_small by lia. reflexivity. }
    rewrite Hstep.
    destruct sched as [| [|] sched']; cbn [prompt] in Hp; try discriminate.
    destruct (Z.eq_dec (timer2_tick s + 1) time_val) as [Heq | Hne].
    + exists [Irq; Poll], sched'. cbn [busy_wait timer2_tick set_timer2_tick].
      rewrite Heq, Z.ltb_irrefl. cbn [count_irq app].
      repeat split; try reflexivity; try assumption; lia.
    + destruct (IH (set_timer2_tick (timer2_tick s + 1) s)) as (used & rest & Hrun & Happ & Hused & Hrest);
        cbn [timer2_tick set_timer2_tick TIMSK SREG_I]; try assumption; try lia.
      exists (Irq :: used), rest. rewrite Hrun, set_timer2_tick_twice, Happ.
      cbn [timer2_tick set_timer2_tick] in Hused. cbn [count_irq app].
      repeat split; try reflexivity; try assumption; lia.
  - cbn [count_irq prompt] in Hcnt, Hp. cbn [busy_wait].
    destruct (Z.ltb_spec (timer2_tick s) time_val) as [_ | Hge]; [| lia].
    destruct (IH s) as (used & rest & Hrun & Happ & Hused & Hrest); try assumption.
    exists (Poll :: used), rest. rewrite Hrun, Happ. cbn [count_irq app].
    repeat split; try reflexivity; try assumption.
Qed.

(** With [time_val = 0] the first evaluation of the loop condition leaves the
    loop, whatever number of compare matches precedes it. *)
Lemma busy_wait_zero rest :
  forall k s,
    0 <= timer2_tick s ->
    exists t,
      busy_wait 0 (repeat Irq k ++ Poll :: rest) s
        = Some (set_pending rest (set_timer2_tick t s)) /\ 0 <= t.
Proof.
  induction k as [| k IH]; intros s Hpos; cbn [repeat app busy_wait].
  - destruct (Z.ltb_spec (timer2_tick s) 0) as [Hlt | _]; [lia |].
    exists (timer2_tick s). split; [reflexivity | exact Hpos].
  - destruct (irq_step_tick s Hpos) as (t0 & -> & Ht0).
    destruct (IH (set_timer2_tick t0 s)) as (t & Hrun & Ht); [cbn; lia |].
    exists t. rewrite Hrun, set_timer2_tick_twice. split; [reflexivity | exact Ht].
Qed.

(** ** [wait_ms] *)

Lemma wait_ms_unfold time_val s :
  wait_ms time_val s =
  (s1 <- busy_wait time_val (pending s) (armed time_val s) ;; Some (timer2_stop s1)).
Proof. reflexivity. Qed.

(** Whenever [wait_ms] returns: the final state is the armed state with a new
    counter value and the rest of the schedule, passed through [timer2_stop];
    at least [time_val] compare matches were consumed. *)
Lemma wait_ms_inv time_val s s' :
  wait_ms time_val s = Some s' ->
  exists t used rest,
    s' = timer2_stop (set_pending rest (set_timer2_tick t (armed time_val s))) /\
    pending s = used ++ rest /\
    time_val <= t /\ 0 <= t <= count_irq used.
Proof.
  rewrite wait_ms_unfold. intros Hrun.
  destruct (busy_wait time_val (pending s) (armed time_val s)) as [s1 |] eqn:Hloop;
    cbn [bind] in Hrun; [| discriminate].
  injection Hrun as <-.
  apply busy_wait_inv in Hloop; [| cbn; lia].
  destruct Hloop as (t & used & rest & -> & Happ & Hle & Hbound).
  exists t, used, rest. cbn [timer2_tick armed] in Hbound.
  repeat split; try assumption; try lia.
  change (timer2_tick (armed time_val s)) with 0 in Hbound. lia.
Qed.

(** Under prompt polling [wait_ms] returns, having consumed exactly
    [time_val] compare matches. *)
Lemma wait_ms_prompt time_val s :
  1 <= time_val < 65536 ->
  prompt (pending s) = true ->
  time_val <= count_irq (pending s) ->
  exists used rest,
    wait_ms time_val s
      = Some (timer2_stop (set_pending rest (set_timer2_tick time_val (armed time_val s)))) /\
    pending s = used ++ rest /\
    count_irq used = time_val /\
    prompt rest = true.
Proof.
  intros Hrange Hp Hcnt. rewrite wait_ms_unfold.
  destruct (busy_wait_prompt time_val (pending s) (armed time_val s))
    as (used & rest & Hrun & Happ & Hused & Hrest).
  - apply ocie2_set.
  - reflexivity.
  - change (timer2_tick (armed time_val s)) with 0. lia.
  - lia.
  - exact Hp.
  - change (timer2_tick (armed time_val s)) with 0. lia.
  - exists used, rest. rewrite Hrun. cbn [bind].
    change (timer2_tick (armed time_val s)) with 0 in Hused.
    repeat split; try assumption. lia.
Qed.

(** What every returning [wait_ms] leaves behind, besides the timer. *)
Lemma wait_ms_frame time_val s s' :
  wait_ms time_val s = Some s' ->
  coil_position s' = coil_position s /\ PORTE s' = PORTE s /\
  DDRE s' = DDRE s /\ old_value s' = old_value s /\
  DDRC s' = DDRC s /\ PORTC s' = PORTC s.
Proof.
  intros H. apply wait_ms_inv in H. destruct H as (t & used & rest & -> & _).
  repeat split.
Qed.

(** C1, as the specification has it, fails: from the power-on state a wait
    of zero ticks does call [timer2_start(0)] and does overwrite [TCCR2] and
    [OCR2]. *)
Lemma wait_ms_zero_starts_timer :
  exists s',
    wait_ms 0 (power_on [Poll]) = Some s' /\
    In (CallTimer2Start 0) (journal s') /\
    TCCR2 s' <> TCCR2 (power_on [Poll]) /\
    OCR2 s' <> OCR2 (power_on [Poll]).
Proof.
  exists (mk_mcu 250 0x0B 0 true 0 0 0 0 0 0x03 0x1 []
                 [CallTimer2Stop; CallTimer2Start 0; CallWaitMs 0]).
  split; [vm_compute; reflexivity |].
  split; [right; left; reflexivity |].
  split; vm_compute; discriminate.
Qed.

(** C1 (amended): for [time_val = 0], [wait_ms] returns at its first
    evaluation of the loop condition, without waiting for any compare match;
    it nevertheless runs the timer driver: [timer2_start(0)] and then
    [timer2_stop] are called, [OCR2] is set to 250, [TCCR2] to 0b00001011,
    global interrupts are enabled and the compare interrupt ends disabled. *)
Theorem wait_ms_zero_returns_at_first_poll :
  forall (s : mcu) (k : nat) (rest : list event),
    exists s',
      wait_ms 0 (set_pending (repeat Irq k ++ Poll :: rest) s) = Some s' /\
      pending s' = rest /\
      journal s' = CallTimer2Stop :: CallTimer2Start 0 :: CallWaitMs 0 :: journal s /\
      OCR2 s' = 250 /\ TCCR2 s' = 0x0B /\
      Z.testbit (TIMSK s') 7 = false /\ SREG_I s' = true.
Proof.
  intros s k rest. rewrite wait_ms_unfold.
  set (s0 := set_pending (repeat Irq k ++ Poll :: rest) s).
  destruct (busy_wait_zero rest k (armed 0 s0)) as (t & Hrun & Ht);
    [cbn; lia |].
  change (pending s0) with (repeat Irq k ++ Poll :: rest).
  rewrite Hrun. cbn [bind]. eexists. split; [reflexivity |].
  repeat split. apply ocie2_cleared.
Qed.

(** C2: for [1 <= time_val] (an [unsigned int]), whenever [wait_ms] returns,
    at least [time_val] compare matches have been served and the tick counter
    read at exit is not below [time_val]; and when the main line polls at
    least once per timer period and the timer keeps firing, [wait_ms] does
    return, at the poll right after the [time_val]-th compare match: exactly
    [time_val] matches are consumed and the counter equals [time_val]. *)
Theorem wait_ms_returns_on_time :
  forall (time_val : Z) (s : mcu),
    1 <= time_val < 65536 ->
    (forall s', wait_ms time_val s = Some s' ->
       exists used,
         pending s = used ++ pending s' /\
         time_val <= count_irq used /\ time_val <= timer2_tick s') /\
    (prompt (pending s) = true -> time_val <= count_irq (pending s) ->
       exists s' used,
         wait_ms time_val s = Some s' /\
         pending s = used ++ pending s' /\
         count_irq used = time_val /\ timer2_tick s' = time_val).
Proof.
  intros time_val s Hrange. split.
  - intros s' Hrun. apply wait_ms_inv in Hrun.
    destruct Hrun as (t & used & rest & -> & Happ & Hle & Hbound).
    exists used. cbn [pending timer2_stop set_TCCR2 set_TIMSK note set_pending
                      timer2_tick set_timer2_tick].
    repeat split; try assumption; lia.
  - intros Hp Hcnt.
    destruct (wait_ms_prompt time_val s Hrange Hp Hcnt)
      as (used & rest & Hrun & Happ & Hused & _).
    eexists. exists used. split; [exact Hrun |].
    repeat split; assumption.
Qed.

Lemma wait_ms_returns_on_time_witness :
  (forall s', wait_ms 3 (power_on (steady 5)) = Some s' ->
     exists used,
       steady 5 = used ++ pending s' /\
       3 <= count_irq used /\ 3 <= timer2_tick s') /\
  (exists s' used,
     wait_ms 3 (power_on (steady 5)) = Some s' /\
     steady 5 = used ++ pending s' /\
     count_irq used = 3 /\ timer2_tick s' = 3).
Proof.
  destruct (wait_ms_returns_on_time 3 (power_on (steady 5))) as [Hsafe Hlive].
  - lia.
  - split.
    + exact Hsafe.
    + apply Hlive; [reflexivity | vm_compute; discriminate].
Defined.

(** C9: called with a unit other than 0 and 1, [timer2_start] resets the tick
    counter, sets the global interrupt flag and writes nothing else: [TCCR2]
    and [TIMSK] keep their values, so a compare interrupt that was disabled
    before the call stays disabled and does not move the counter. *)
Theorem timer2_start_invalid_unit :
  forall (unit : Z) (s : mcu),
    unit <> 0 -> unit <> 1 ->
    timer2_start unit s
      = set_SREG_I true (set_timer2_tick 0 (note (CallTimer2Start unit) s)) /\
    timer2_tick (timer2_start unit s) = 0 /\
    SREG_I (timer2_start unit s) = true /\
    TCCR2 (timer2_start unit s) = TCCR2 s /\
    TIMSK (timer2_start unit s) = TIMSK s /\
    OCR2 (timer2_start unit s) = OCR2 s /\
    (Z.testbit (TIMSK s) 7 = false ->
     irq_step (timer2_start unit s) = timer2_start unit s).
Proof.
  intros unit s H0 H1.
  assert (Heq : timer2_start unit s
                = set_SREG_I true (set_timer2_tick 0 (note (CallTimer2Start unit) s))).
  { unfold timer2_start.
    destruct (Z.eqb_spec unit 0) as [? | _]; [contradiction |].
    destruct (Z.eqb_spec unit 1) as [? | _]; [contradiction |].
    reflexivity. }
  rewrite Heq. repeat split.
  intros Hoff. unfold irq_step.
  cbn [TIMSK set_SREG_I set_timer2_tick note]. rewrite Hoff. reflexivity.
Qed.

Lemma timer2_start_invalid_unit_witness :
  timer2_tick (timer2_start 2 (power_on [])) = 0 /\
  SREG_I (timer2_start 2 (power_on [])) = true /\
  TCCR2 (timer2_start 2 (power_on [])) = TCCR2 (power_on []) /\
  TIMSK (timer2_start 2 (power_on [])) = TIMSK (power_on []).
Proof.
  destruct (timer2_start_invalid_unit 2 (power_on [])) as (_ & Ht & Hi & Hc & Hm & _).
  - lia.
  - lia.
  - repeat split; assumption.
Defined.

(** ** Push buttons *)

(** The test [((PINC >> shift) & 0x01) == 0] reads bit [shift] of the sample. *)
Lemma button_test p k :
  0 <= k < 8 ->
  (Z.land (Z.shiftr (uint8 p) k) 0x01 =? 0) = negb (Z.testbit p k).
Proof.
  intros Hk. change 0x01 with (Z.ones 1). rewrite Z.land_ones by lia.
  change (2 ^ 1) with 2. rewrite <- Z.bit0_mod.
  rewrite Z.shiftr_spec by lia. rewrite Z.add_0_l.
  rewrite uint8_testbit by lia.
  destruct (Z.testbit p k); reflexivity.
Qed.

(** The scan stops at the first pressed button met on the way down. *)
Lemma scan_buttons_found pinc :
  forall n k,
    0 <= k < Z.of_nat n -> Z.of_nat n <= 8 ->
    pressed (pinc k) k ->
    (forall j, k < j < Z.of_nat n -> ~ pressed (pinc j) j) ->
    scan_buttons pinc n = k.
Proof.
  induction n as [| n IH]; intros k Hk Hn Hdown Hup; [lia |].
  cbn [scan_buttons]. rewrite button_test by lia.
  destruct (Z.eq_dec k (Z.of_nat n)) as [-> | Hne].
  - unfold pressed in Hdown. rewrite Hdown. reflexivity.
  - assert (Hrel : Z.testbit (pinc (Z.of_nat n)) (Z.of_nat n) = true).
    { specialize (Hup (Z.of_nat n) ltac:(lia)). unfold pressed in Hup.
      destruct (Z.testbit (pinc (Z.of_nat n)) (Z.of_nat n)); congruence. }
    rewrite Hrel. cbn [negb].
    apply IH; try lia; try assumption.
    intros j Hj. apply Hup. lia.
Qed.

(** With no button pressed the loop runs out with [shift = -1]. *)
Lemma scan_buttons_none pinc :
  forall n,
    Z.of_nat n <= 8 ->
    (forall j, 0 <= j < Z.of_nat n -> ~ pressed (pinc j) j) ->
    scan_buttons pinc n = -1.
Proof.
  induction n as [| n IH]; intros Hn Hup; [reflexivity |].
  cbn [scan_buttons]. rewrite button_test by lia.
  assert (Hrel : Z.testbit (pinc (Z.of_nat n)) (Z.of_nat n) = true).
  { specialize (Hup (Z.of_nat n) ltac:(lia)). unfold pressed in Hup.
    destruct (Z.testbit (pinc (Z.of_nat n)) (Z.of_nat n)); congruence. }
  rewrite Hrel. cbn [negb].
  apply IH; [lia |]. intros j Hj. apply Hup. lia.
Qed.

(** C7: [read_push_buttons] scans shift indices 5 down to 0 and returns one
    more than the first index whose (active-low) input reads 0, so the highest
    pressed index wins; it returns 0 when none of the six reads 0.  Pressing
    only index 3 gives 4; pressing indices 5 and 0 together gives 6. *)
Theorem read_push_buttons_priority :
  forall pinc : Z -> Z,
    (forall k, 0 <= k <= 5 ->
       pressed (pinc k) k ->
       (forall j, k < j <= 5 -> ~ pressed (pinc j) j) ->
       read_push_buttons pinc = k + 1) /\
    ((forall j, 0 <= j <= 5 -> ~ pressed (pinc j) j) ->
       read_push_buttons pinc = 0) /\
    read_push_buttons (fun _ => 0xF7) = 4 /\
    read_push_buttons (fun _ => 0xDE) = 6.
Proof.
  intros pinc. split; [| split; [| split; reflexivity]].
  - intros k Hk Hdown Hup. unfold read_push_buttons.
    rewrite (scan_buttons_found pinc 6 k); try assumption; try (cbn; lia).
    + apply uint8_small. lia.
    + intros j Hj. apply Hup. cbn in Hj. lia.
  - intros Hup. unfold read_push_buttons.
    rewrite (scan_buttons_none pinc 6); [reflexivity | cbn; lia |].
    intros j Hj. apply Hup. cbn in Hj. lia.
Qed.

Lemma read_push_buttons_priority_witness :
  read_push_buttons (fun _ => 0xDE) = 5 + 1 /\
  read_push_buttons (fun _ => 0xFF) = 0.
Proof.
  destruct (read_push_buttons_priority (fun _ => 0xDE)) as (Hfound & _).
  destruct (read_push_buttons_priority (fun _ => 0xFF)) as (_ & Hnone & _).
  split.
  - apply Hfound.
    + lia.
    + reflexivity.
    + intros j Hj. lia.
  - apply Hnone. intros j Hj.
    assert (j = 0 \/ j = 1 \/ j = 2 \/ j = 3 \/ j = 4 \/ j = 5)
      as [-> | [-> | [-> | [-> | [-> | ->]]]]] by lia;
      unfold pressed; cbn; discriminate.
Defined.

(** ** Shaft encoder *)

Lemma encoder_sample_range pinc : 0 <= Z.shiftr (uint8 pinc) 6 < 4.
Proof.
  rewrite Z.shiftr_div_pow2 by lia. change (2 ^ 6) with 64.
  unfold uint8. pose proof (Z.mod_pos_bound pinc 256 ltac:(lia)) as Hb.
  split.
  - apply Z.div_pos; lia.
  - apply Z.div_lt_upper_bound; lia.
Qed.

Lemma encoder_new_value pinc : int8 (Z.shiftr (uint8 pinc) 6) = Z.shiftr (uint8 pinc) 6.
Proof.
  pose proof (encoder_sample_range pinc) as Hb. unfold int8.
  rewrite Z.mod_small by lia. lia.
Qed.

(** C8: [read_shaft_encoder] returns +1 exactly when the stored state is 11
    and the new sample is 01, -1 exactly when the stored state is 11 and the
    new sample is 10, and 0 in every other case; the stored state becomes the
    new sample on every call, so a second call that sees 01 again right after
    a +1 returns 0. *)
Theorem read_shaft_encoder_decodes :
  forall (pinc : Z) (s : mcu),
    let new_value := Z.shiftr (uint8 pinc) 6 in
    let rotation := fst (read_shaft_encoder pinc s) in
    let s' := snd (read_shaft_encoder pinc s) in
    (rotation = 1 <-> old_value s = 3 /\ new_value = 1) /\
    (rotation = -1 <-> old_value s = 3 /\ new_value = 2) /\
    (rotation = 0 <-> ~ (old_value s = 3 /\ (new_value = 1 \/ new_value = 2))) /\
    s' = set_old_value new_value s /\
    (forall pinc2,
       old_value s = 3 -> new_value = 1 -> Z.shiftr (uint8 pinc2) 6 = 1 ->
       rotation = 1 /\ fst (read_shaft_encoder pinc2 s') = 0).
Proof.
  intros pinc s new_value rotation s'.
  subst rotation s'. unfold read_shaft_encoder.
  rewrite encoder_new_value. fold new_value. cbn [fst snd old_value set_old_value].
  destruct (Z.eqb_spec (old_value s) 3) as [Hold | Hold];
    destruct (Z.eqb_spec new_value 1) as [H1 | H1];
    destruct (Z.eqb_spec new_value 2) as [H2 | H2];
    repeat split; intros; try lia; try tauto; try congruence; auto;
    try (exfalso; lia); try (intros [? ?]; lia).
  (* the second call: the stored state is now 01, not 11 *)
  rewrite H1. reflexivity.
Qed.

Lemma read_shaft_encoder_decodes_witness :
  fst (read_shaft_encoder 0x40 (power_on [])) = 1 /\
  fst (read_shaft_encoder 0x40 (snd (read_shaft_encoder 0x40 (power_on [])))) = 0.
Proof.
  destruct (read_shaft_encoder_decodes 0x40 (power_on [])) as (_ & _ & _ & _ & Hpair).
  apply (Hpair 0x40); reflexivity.
Defined.

(** ** Stepper sequencer *)

Lemma one_hot4_advance_cw c :
  one_hot4 c -> advance_cw c = rotate_left4 c /\ one_hot4 (advance_cw c).
Proof.
  unfold one_hot4.
  intros [-> | [-> | [-> | ->]]]; split; try reflexivity; cbn; auto.
Qed.

Lemma one_hot4_advance_ccw c :
  one_hot4 c -> advance_ccw c = rotate_right4 c /\ one_hot4 (advance_ccw c).
Proof.
  unfold one_hot4.
  intros [-> | [-> | [-> | ->]]]; split; try reflexivity; cbn; auto.
Qed.

Lemma one_hot4_advance d c : one_hot4 c -> one_hot4 (advance d c).
Proof.
  intros H. unfold advance.
  destruct (d =? 1); [apply one_hot4_advance_cw; exact H |].
  destruct (d =? -1); [apply one_hot4_advance_ccw; exact H | exact H].
Qed.

Lemma one_hot4_iter d c k : one_hot4 c -> one_hot4 (Nat.iter k (advance d) c).
Proof.
  intros H. induction k as [| k IH]; cbn [Nat.iter nat_rect].
  - exact H.
  - apply one_hot4_advance. exact IH.
Qed.

(** One loop iteration: the coil is advanced, the timer is run once. *)
Lemma step_once_inv adv s s' :
  step_once adv s = Some s' ->
  coil_position s' = adv (coil_position s) /\
  old_value s' = old_value s /\
  exists used, pending s = used ++ pending s' /\ 2 <= count_irq used.
Proof.
  unfold step_once. intros H. apply wait_ms_inv in H.
  destruct H as (t & used & rest & -> & Happ & Hle & Hbound).
  repeat split. exists used. split; [exact Happ | lia].
Qed.

Lemma step_once_prompt adv s :
  prompt (pending s) = true -> 2 <= count_irq (pending s) ->
  exists s',
    step_once adv s = Some s' /\
    prompt (pending s') = true /\
    count_irq (pending s') = count_irq (pending s) - 2.
Proof.
  intros Hp Hcnt. unfold step_once.
  set (s0 := drive_coils (set_coil_position (adv (coil_position s)) s)).
  destruct (wait_ms_prompt 2 s0) as (used & rest & Hrun & Happ & Hused & Hrest);
    try assumption; try lia.
  eexists. split; [exact Hrun |].
  change (pending s0) with (pending s) in Happ.
  split; [exact Hrest |].
  rewrite Happ, count_irq_app.
  change (count_irq rest = count_irq used + count_irq rest - 2). lia.
Qed.

(** The [for] loop applies the coil update [num_steps - i] times (none when
    [num_steps <= i]). *)
Lemma for_loop_coil adv num_steps :
  forall fuel i s s',
    for_loop fuel i num_steps (step_once adv) s = Some s' ->
    coil_position s' = Nat.iter (Z.to_nat (num_steps - i)) adv (coil_position s).
Proof.
  induction fuel as [| fuel IH]; intros i s s' Hrun; cbn [for_loop] in Hrun;
    destruct (Z.ltb_spec i num_steps) as [Hlt | Hge]; try discriminate.
  - injection Hrun as <-. replace (Z.to_nat (num_steps - i)) with O by lia. reflexivity.
  - destruct (step_once adv s) as [s1 |] eqn:Hbody; cbn [bind] in Hrun; [| discriminate].
    apply IH in Hrun. apply step_once_inv in Hbody. destruct Hbody as (Hcoil & _).
    rewrite Hrun, Hcoil.
    replace (Z.to_nat (num_steps - i)) with (S (Z.to_nat (num_steps - (i + 1)))) by lia.
    rewrite Nat.iter_succ_r. reflexivity.
  - injection Hrun as <-. replace (Z.to_nat (num_steps - i)) with O by lia. reflexivity.
Qed.

Lemma for_loop_prompt adv num_steps :
  forall fuel i s,
    (Z.to_nat (num_steps - i) <= fuel)%nat ->
    prompt (pending s) = true ->
    2 * (num_steps - i) <= count_irq (pending s) ->
    exists s',
      for_loop fuel i num_steps (step_once adv) s = Some s' /\
      prompt (pending s') = true /\
      count_irq (pending s') = count_irq (pending s) - 2 * Z.max 0 (num_steps - i).
Proof.
  induction fuel as [| fuel IH]; intros i s Hfuel Hp Hcnt; cbn [for_loop];
    destruct (Z.ltb_spec i num_steps) as [Hlt | Hge]; try lia.
  - exists s. repeat split; [exact Hp | lia].
  - destruct (step_once_prompt adv s Hp ltac:(lia)) as (s1 & Hbody & Hp1 & Hc1).
    rewrite Hbody. cbn [bind].
    destruct (IH (i + 1) s1) as (s' & Hrun & Hp' & Hc'); try assumption; try lia.
    exists s'. repeat split; try assumption. lia.
  - exists s. repeat split; [exact Hp | lia].
Qed.

(** The call as a whole, when it returns. *)
Lemma move_stepper_inv num_steps direction s s' :
  move_stepper_motor_by_step num_steps direction s = Some s' ->
  coil_position s' = Nat.iter (Z.to_nat num_steps) (advance direction) (coil_position s) /\
  Z.land (PORTE s') 0xF0 = 0.
Proof.
  unfold move_stepper_motor_by_step, advance. intros Hrun.
  destruct (direction =? 1).
  - destruct (for_loop _ 0 num_steps (step_once advance_cw) s) as [s1 |] eqn:Hloop;
      cbn [bind] in Hrun; [| discriminate].
    injection Hrun as <-. apply for_loop_coil in Hloop.
    rewrite Z.sub_0_r in Hloop. split; [exact Hloop | apply high_nibble_cleared].
  - destruct (direction =? -1).
    + destruct (for_loop _ 0 num_steps (step_once advance_ccw) s) as [s1 |] eqn:Hloop;
        cbn [bind] in Hrun; [| discriminate].
      injection Hrun as <-. apply for_loop_coil in Hloop.
      rewrite Z.sub_0_r in Hloop. split; [exact Hloop | apply high_nibble_cleared].
    + cbn [bind] in Hrun. injection Hrun as <-.
      split; [| apply high_nibble_cleared].
      cbn [coil_position set_PORTE].
      induction (Z.to_nat num_steps) as [| k IH]; cbn [Nat.iter nat_rect]; auto.
Qed.

(** The call returns when the main line polls promptly and the schedule
    holds two compare matches per step. *)
Lemma move_stepper_prompt num_steps direction s :
  prompt (pending s) = true ->
  2 * num_steps <= count_irq (pending s) ->
  exists s',
    move_stepper_motor_by_step num_steps direction s = Some s' /\
    prompt (pending s') = true /\
    count_irq (pending s) - 2 * Z.max 0 num_steps <= count_irq (pending s').
Proof.
  intros Hp Hcnt. unfold move_stepper_motor_by_step.
  destruct (direction =? 1).
  - destruct (for_loop_prompt advance_cw num_steps (Z.to_nat num_steps) 0 s)
      as (s1 & Hrun & Hp1 & Hc1); try assumption; try lia.
    rewrite Hrun. cbn [bind]. eexists. split; [reflexivity |].
    cbn [pending set_PORTE]. split; [exact Hp1 | lia].
  - destruct (direction =? -1).
    + destruct (for_loop_prompt advance_ccw num_steps (Z.to_nat num_steps) 0 s)
        as (s1 & Hrun & Hp1 & Hc1); try assumption; try lia.
      rewrite Hrun. cbn [bind]. eexists. split; [reflexivity |].
      cbn [pending set_PORTE]. split; [exact Hp1 | lia].
    + cbn [bind]. eexists. split; [reflexivity |].
      cbn [pending set_PORTE]. split; [exact Hp | lia].
Qed.

Lemma single_steps_coils direction :
  forall k s l s',
    single_steps k direction s = Some (l, s') ->
    l = orbit k (advance direction) (coil_position s) /\
    coil_position s' = Nat.iter k (advance direction) (coil_position s).
Proof.
  induction k as [| k IH]; intros s l s' Hrun; cbn [single_steps] in Hrun.
  - injection Hrun as <- <-. split; reflexivity.
  - destruct (move_stepper_motor_by_step 1 direction s) as [s1 |] eqn:Hcall;
      cbn [bind] in Hrun; [| discriminate].
    destruct (single_steps k direction s1) as [[l1 s2] |] eqn:Htail;
      cbn [bind fst snd] in Hrun; [| discriminate].
    injection Hrun as <- <-.
    apply move_stepper_inv in Hcall. destruct Hcall as (Hcoil & _).
    change (Z.to_nat 1) with 1%nat in Hcoil. cbn [Nat.iter nat_rect] in Hcoil.
    apply IH in Htail. destruct Htail as (-> & ->).
    rewrite Hcoil. cbn [orbit]. split; [reflexivity |].
    rewrite <- Nat.iter_succ_r. reflexivity.
Qed.

Lemma single_steps_prompt direction :
  forall k s,
    prompt (pending s) = true ->
    2 * Z.of_nat k <= count_irq (pending s) ->
    exists r, single_steps k direction s = Some r.
Proof.
  induction k as [| k IH]; intros s Hp Hcnt; cbn [single_steps].
  - eexists. reflexivity.
  - destruct (move_stepper_prompt 1 direction s Hp ltac:(lia)) as (s1 & Hcall & Hp1 & Hc1).
    rewrite Hcall. cbn [bind].
    destruct (IH s1 Hp1 ltac:(lia)) as (r & Htail).
    rewrite Htail. cbn [bind]. eexists. reflexivity.
Qed.

Lemma four_steps_cycle d c :
  d = 1 \/ d = -1 -> one_hot4 c -> Nat.iter 4 (advance d) c = c.
Proof.
  unfold one_hot4.
  intros [-> | ->] [-> | [-> | [-> | ->]]]; reflexivity.
Qed.

(** C3: a single step replaces a one-hot coil position by its rotation one
    bit to the left (direction +1) or to the right (direction -1), with
    wraparound.  Four successive single steps from 0001 show 0010, 0100,
    1000, 0001 clockwise and 1000, 0100, 0010, 0001 counterclockwise, and four
    steps in either direction (in one call or in four) bring any coil
    position back to where it started.  The calls return whenever the main
    line polls promptly and the timer keeps firing. *)
Theorem stepper_step_rotates :
  forall s : mcu,
    (one_hot4 (coil_position s) ->
     forall s',
       (move_stepper_motor_by_step 1 1 s = Some s' ->
        coil_position s' = rotate_left4 (coil_position s)) /\
       (move_stepper_motor_by_step 1 (-1) s = Some s' ->
        coil_position s' = rotate_right4 (coil_position s))) /\
    (coil_position s = 1 ->
     forall l s',
       (single_steps 4 1 s = Some (l, s') -> l = [2; 4; 8; 1]) /\
       (single_steps 4 (-1) s = Some (l, s') -> l = [8; 4; 2; 1])) /\
    (one_hot4 (coil_position s) ->
     forall d s',
       d = 1 \/ d = -1 ->
       (move_stepper_motor_by_step 4 d s = Some s' ->
        coil_position s' = coil_position s) /\
       (forall l, single_steps 4 d s = Some (l, s') ->
                  coil_position s' = coil_position s)) /\
    (prompt (pending s) = true -> 8 <= count_irq (pending s) ->
     forall d,
       (exists s', move_stepper_motor_by_step 1 d s = Some s') /\
       (exists s', move_stepper_motor_by_step 4 d s = Some s') /\
       (exists r, single_steps 4 d s = Some r)).
Proof.
  intros s. split; [| split; [| split]].
  - intros Hhot s'. split; intros Hrun;
      apply move_stepper_inv in Hrun; destruct Hrun as (-> & _).
    + apply one_hot4_advance_cw. exact Hhot.
    + apply one_hot4_advance_ccw. exact Hhot.
  - intros Hinit l s'. split; intros Hrun;
      apply single_steps_coils in Hrun; destruct Hrun as (-> & _);
      rewrite Hinit; reflexivity.
  - intros Hhot d s' Hd. split.
    + intros Hrun. apply move_stepper_inv in Hrun. destruct Hrun as (-> & _).
      apply four_steps_cycle; assumption.
    + intros l Hrun. apply single_steps_coils in Hrun. destruct Hrun as (_ & ->).
      apply four_steps_cycle; assumption.
  - intros Hp Hcnt d. split; [| split].
    + destruct (move_stepper_prompt 1 d s Hp ltac:(lia)) as (s' & Hrun & _).
      exists s'. exact Hrun.
    + destruct (move_stepper_prompt 4 d s Hp ltac:(lia)) as (s' & Hrun & _).
      exists s'. exact Hrun.
    + apply single_steps_prompt; [exact Hp | cbn; lia].
Qed.

Lemma stepper_step_rotates_witness :
  (exists l s', single_steps 4 1 (power_on (steady 8)) = Some (l, s') /\
                l = [2; 4; 8; 1]) /\
  (exists s', move_stepper_motor_by_step 4 (-1) (power_on (steady 8)) = Some s' /\
              coil_position s' = 1).
Proof.
  destruct (stepper_step_rotates (power_on (steady 8)))
    as (_ & Hseq & Hcycle & Hlive).
  destruct (Hlive ltac:(reflexivity) ltac:(vm_compute; discriminate) 1)
    as (_ & _ & ([l s'] & Hrun)).
  destruct (Hlive ltac:(reflexivity) ltac:(vm_compute; discriminate) (-1))
    as (_ & (s2 & Hrun2) & _).
  split.
  - exists l, s'. split; [exact Hrun |].
    apply (Hseq ltac:(reflexivity) l s'). exact Hrun.
  - exists s2. split; [exact Hrun2 |].
    apply (Hcycle ltac:(left; reflexivity) (-1) s2 ltac:(right; reflexivity)).
    exact Hrun2.
Defined.

Lemma bind_inv {A B : Type} (m : option A) (k : A -> option B) (b : B) :
  bind m k = Some b -> exists a, m = Some a /\ k a = Some b.
Proof.
  destruct m as [a |]; cbn [bind]; intros H; [| discriminate].
  exists a. split; [reflexivity | exact H].
Qed.

Lemma stepper_init_unfold s :
  stepper_init s =
  (s1 <- wait_ms 2 (set_PORTE (uint8 (Z.land (PORTE (set_DDRE (uint8 (Z.lor (DDRE s) 0xF0)) s)) 0x8F))
                              (set_DDRE (uint8 (Z.lor (DDRE s) 0xF0)) s)) ;;
   Some (set_PORTE (uint8 (Z.land (PORTE s1) 0x0F)) s1)).
Proof. reflexivity. Qed.

(** Every call of the interface leaves a one-hot coil position one-hot. *)
Lemma exec_keeps_one_hot c s s' :
  exec c s = Some s' -> one_hot4 (coil_position s) -> one_hot4 (coil_position s').
Proof.
  destruct c as [time_val | unit | | | | pinc | | num_steps direction];
    cbn [exec]; intros Hrun Hhot.
  - apply wait_ms_frame in Hrun. destruct Hrun as (-> & _). exact Hhot.
  - injection Hrun as <-. unfold timer2_start.
    destruct (unit =? 0); destruct (unit =? 1); exact Hhot.
  - injection Hrun as <-. exact Hhot.
  - injection Hrun as <-. exact Hhot.
  - injection Hrun as <-. exact Hhot.
  - injection Hrun as <-. exact Hhot.
  - rewrite stepper_init_unfold in Hrun. apply bind_inv in Hrun.
    destruct Hrun as (s1 & Hwait & Hret). injection Hret as <-.
    apply wait_ms_frame in Hwait. destruct Hwait as (Hcoil & _).
    cbn [coil_position set_PORTE]. rewrite Hcoil. exact Hhot.
  - apply move_stepper_inv in Hrun. destruct Hrun as (-> & _).
    apply one_hot4_iter. exact Hhot.
Qed.

(** C4: the coil position starts as 0001 and is one of 0001, 0010, 0100,
    1000 in every state reachable by any sequence of calls, whatever the
    step counts and directions passed to [move_stepper_motor_by_step]. *)
Theorem coil_position_stays_one_hot :
  (forall s, initialised s -> coil_position s = 1) /\
  (forall s, reachable s -> one_hot4 (coil_position s)).
Proof.
  split.
  - intros s (_ & _ & Hcoil). exact Hcoil.
  - intros s Hreach. induction Hreach as [s (_ & _ & Hcoil) | c s s' _ IH Hrun | sched s _ IH].
    + left. exact Hcoil.
    + eapply exec_keeps_one_hot; eassumption.
    + exact IH.
Qed.

Lemma coil_position_stays_one_hot_witness :
  exists s',
    exec (ApiMove 3 1) (power_on (steady 6)) = Some s' /\
    one_hot4 (coil_position s').
Proof.
  destruct coil_position_stays_one_hot as (_ & Hinv).
  eexists. split.
  - vm_compute. reflexivity.
  - apply Hinv. apply (reach_call (ApiMove 3 1) (power_on (steady 6))).
    + apply reach_initialised. repeat split.
    + vm_compute. reflexivity.
Defined.

(** C5: whenever [move_stepper_motor_by_step] returns, for any step count
    (zero and negative included) and any direction, bits 4-7 of [PORTE] are
    all 0; and it does return when the main line polls promptly and the
    timer fires twice per requested step. *)
Theorem move_stepper_clears_pins :
  forall (num_steps direction : Z) (s : mcu),
    (forall s', move_stepper_motor_by_step num_steps direction s = Some s' ->
                Z.land (PORTE s') 0xF0 = 0) /\
    (prompt (pending s) = true -> 2 * num_steps <= count_irq (pending s) ->
     exists s', move_stepper_motor_by_step num_steps direction s = Some s' /\
                Z.land (PORTE s') 0xF0 = 0).
Proof.
  intros num_steps direction s. split.
  - intros s' Hrun. apply move_stepper_inv in Hrun. apply Hrun.
  - intros Hp Hcnt.
    destruct (move_stepper_prompt num_steps direction s Hp Hcnt) as (s' & Hrun & _).
    exists s'. split; [exact Hrun |].
    apply move_stepper_inv in Hrun. apply Hrun.
Qed.

Lemma move_stepper_clears_pins_witness :
  exists s',
    move_stepper_motor_by_step 3 (-1) (set_PORTE 0xFF (power_on (steady 6))) = Some s' /\
    Z.land (PORTE s') 0xF0 = 0.
Proof.
  destruct (move_stepper_clears_pins 3 (-1) (set_PORTE 0xFF (power_on (steady 6))))
    as (_ & Hlive).
  apply Hlive; [reflexivity | vm_compute; discriminate].
Defined.

(** C6: with a direction other than +1 and -1 the call takes no step: it
    returns at once, the coil position is unchanged, no [wait_ms] is called
    (journal and schedule untouched), and the only write is the final
    [PORTE &= 0x0F], which leaves bits 4-7 cleared. *)
Theorem move_stepper_invalid_direction :
  forall (num_steps direction : Z) (s : mcu),
    direction <> 1 -> direction <> -1 ->
    exists s',
      move_stepper_motor_by_step num_steps direction s = Some s' /\
      s' = set_PORTE (Z.land (PORTE s) 0x0F) s /\
      coil_position s' = coil_position s /\
      journal s' = journal s /\ pending s' = pending s /\
      Z.land (PORTE s') 0xF0 = 0.
Proof.
  intros num_steps direction s H1 H2. unfold move_stepper_motor_by_step.
  destruct (Z.eqb_spec direction 1) as [? | _]; [contradiction |].
  destruct (Z.eqb_spec direction (-1)) as [? | _]; [contradiction |].
  cbn [bind]. eexists. split; [reflexivity |].
  rewrite uint8_small by (pose proof (land_15_range (PORTE s)); lia).
  repeat split. cbn [PORTE set_PORTE].
  rewrite <- (uint8_small (Z.land (PORTE s) 0x0F))
    by (pose proof (land_15_range (PORTE s)); lia).
  apply high_nibble_cleared.
Qed.

Lemma move_stepper_invalid_direction_witness :
  move_stepper_motor_by_step 5 0 (set_PORTE 0xA5 (power_on []))
    = Some (set_PORTE 0x05 (power_on [])).
Proof.
  destruct (move_stepper_invalid_direction 5 0 (set_PORTE 0xA5 (power_on [])))
    as (s' & Hrun & -> & _).
  - lia.
  - lia.
  - exact Hrun.
Defined.

(** C10: with [num_steps <= 0] and direction +1 or -1 the loop body is never
    entered: the call returns at once, the coil position is unchanged, no
    [wait_ms] is called, and the only write is the final [PORTE &= 0x0F]. *)
Theorem move_stepper_no_steps :
  forall (num_steps direction : Z) (s : mcu),
    num_steps <= 0 -> direction = 1 \/ direction = -1 ->
    exists s',
      move_stepper_motor_by_step num_steps direction s = Some s' /\
      s' = set_PORTE (Z.land (PORTE s) 0x0F) s /\
      coil_position s' = coil_position s /\
      journal s' = journal s /\ pending s' = pending s /\
      Z.land (PORTE s') 0xF0 = 0.
Proof.
  intros num_steps direction s Hn Hd. unfold move_stepper_motor_by_step.
  assert (Hloop : forall body, for_loop (Z.to_nat num_steps) 0 num_steps body s = Some s).
  { intros body. destruct (Z.to_nat num_steps); cbn [for_loop];
      destruct (Z.ltb_spec 0 num_steps); try lia; reflexivity. }
  assert (Hrun : (if direction =? 1
                  then for_loop (Z.to_nat num_steps) 0 num_steps (step_once advance_cw) s
                  else if direction =? -1
                       then for_loop (Z.to_nat num_steps) 0 num_steps (step_once advance_ccw) s
                       else Some s) = Some s).
  { destruct Hd as [-> | ->]; cbn [Z.eqb Pos.eqb]; apply Hloop. }
  rewrite Hrun. cbn [bind]. eexists. split; [reflexivity |].
  rewrite uint8_small by (pose proof (land_15_range (PORTE s)); lia).
  repeat split. cbn [PORTE set_PORTE].
  rewrite <- (uint8_small (Z.land (PORTE s) 0x0F))
    by (pose proof (land_15_range (PORTE s)); lia).
  apply high_nibble_cleared.
Qed.

Lemma move_stepper_no_steps_witness :
  move_stepper_motor_by_step (-7) 1 (set_PORTE 0xA5 (power_on []))
    = Some (set_PORTE 0x05 (power_on [])).
Proof.
  destruct (move_stepper_no_steps (-7) 1 (set_PORTE 0xA5 (power_on [])))
    as (s' & Hrun & -> & _).
  - lia.
  - left. reflexivity.
  - exact Hrun.
Defined.

(** * Further properties of the code *)

(** ** Bit-level reasoning on 8-bit registers *)

Lemma uint8_bits z n :
  0 <= n -> Z.testbit (uint8 z) n = (n <? 8) && Z.testbit z n.
Proof.
  intros Hn. unfold uint8. change 256 with (2 ^ 8).
  apply Z.testbit_mod_pow2. lia.
Qed.

Lemma int8_bits z n : 0 <= n < 8 -> Z.testbit (int8 z) n = Z.testbit z n.
Proof.
  intros Hn.
  rewrite <- (uint8_testbit (int8 z)) by lia.
  rewrite <- (uint8_testbit z n) by lia.
  f_equal. unfold uint8, int8.
  rewrite Zminus_mod_idemp_l. f_equal. lia.
Qed.

Lemma small_bits K n : 0 <= K < 256 -> 8 <= n -> Z.testbit K n = false.
Proof.
  intros HK Hn. destruct (Z.eq_dec K 0) as [-> | Hne]; [apply Z.bits_0 |].
  apply Z.bits_above_log2; [lia |].
  apply Z.log2_lt_pow2; [lia |].
  assert (2 ^ 8 <= 2 ^ n) by (apply Z.pow_le_mono_r; lia).
  change (2 ^ 8) with 256 in *. lia.
Qed.

(** Equalities between masks of 8-bit values, bit by bit: bits 0-7 one at a
    time, bits above all at once. *)
Ltac eval_const_bits :=
  repeat match goal with
    | |- context [Z.testbit (Zpos ?p) ?k] =>
        let v := eval vm_compute in (Z.testbit (Zpos p) k) in
        change (Z.testbit (Zpos p) k) with v
    | |- context [Z.testbit (Zneg ?p) ?k] =>
        let v := eval vm_compute in (Z.testbit (Zneg p) k) in
        change (Z.testbit (Zneg p) k) with v
    | |- context [Z.testbit 0 ?k] => rewrite (Z.bits_0 k)
    end.

Ltac split_bits :=
  repeat match goal with
    | |- context [Z.testbit ?x ?k] => destruct (Z.testbit x k)
    end;
  reflexivity.

Ltac by_bits :=
  apply Z.bits_inj';
  let n := fresh "n" in
  let Hn := fresh "Hn" in
  let Hcase := fresh "Hcase" in
  intros n Hn;
  repeat first [ rewrite uint8_bits by lia
               | rewrite Z.land_spec
               | rewrite Z.lor_spec
               | rewrite Z.lnot_spec by lia
               | rewrite Z.bits_0 ];
  destruct (Z.ltb_spec n 8);
  [ assert (n = 0 \/ n = 1 \/ n = 2 \/ n = 3 \/ n = 4 \/ n = 5 \/ n = 6 \/ n = 7)
      as Hcase by lia;
    repeat (destruct Hcase as [-> | Hcase]); try subst n;
    repeat rewrite int8_bits by lia;
    eval_const_bits; split_bits
  | repeat match goal with
      | |- context [Z.testbit (Zpos ?p) n] =>
          rewrite (small_bits (Zpos p) n) by lia
      end;
    cbn [andb orb negb];
    repeat rewrite ?Bool.andb_false_r, ?Bool.orb_false_r, ?Bool.andb_false_l;
    try reflexivity; split_bits ].

Lemma mask_low7_after_set x : Z.land (uint8 (Z.lor x 0x80)) 0x7F = Z.land x 0x7F.
Proof. by_bits. Qed.






Lemma mask_low7_set_clear x :
  Z.land (uint8 (Z.land (uint8 (Z.lor x 0x80)) (Z.lnot 0x80))) 0x7F = Z.land x 0x7F.
Proof. by_bits. Qed.

(** ** Timer driver: start, count, stop *)

Lemma irq_step_masked s :
  Z.testbit (TIMSK s) 7 = false \/ SREG_I s = false -> irq_step s = s.
Proof.
  unfold irq_step. intros [H | H]; rewrite H.
  - reflexivity.
  - rewrite Bool.andb_false_r. reflexivity.
Qed.

Lemma iter_irq_step_masked s k :
  Z.testbit (TIMSK s) 7 = false \/ SREG_I s = false ->
  Nat.iter k irq_step s = s.
Proof.
  intros H. induction k as [| k IH].
  - reflexivity.
  - rewrite Nat.iter_succ, IH. apply irq_step_masked. exact H.
Qed.

(** With the compare interrupt enabled, [k] matches add [k] to the 16-bit
    counter, modulo 65536, and change nothing else. *)
Lemma iter_irq_step_enabled s k :
  Z.testbit (TIMSK s) 7 = true -> SREG_I s = true ->
  Nat.iter k irq_step s
  = match k with
    | O => s
    | S _ => set_timer2_tick ((timer2_tick s + Z.of_nat k) mod 65536) s
    end.
Proof.
  intros Hie Hgi. induction k as [| k IH]; [reflexivity |].
  rewrite Nat.iter_succ, IH. unfold irq_step.
  destruct k as [| k'].
  - rewrite Hie, Hgi. cbn [andb]. unfold ISR_TIMER2_COMP, uint16.
    f_equal.
  - cbn [TIMSK SREG_I set_timer2_tick]. rewrite Hie, Hgi. cbn [andb].
    unfold ISR_TIMER2_COMP, uint16. cbn [timer2_tick set_timer2_tick].
    rewrite set_timer2_tick_twice. f_equal.
    rewrite Zplus_mod_idemp_l. f_equal. lia.
Qed.

(** X1: [timer2_start] with unit 0 (slow) or 1 (fast) resets the counter,
    loads [TCCR2] with 0b00001011 or 0b00001001, sets OCIE2 (bit 7 of
    [TIMSK]) without touching the other seven mask bits, enables interrupts
    globally, and does not write [OCR2]: the compare threshold is the
    caller's business. *)
Theorem timer2_start_configures :
  forall (unit : Z) (s : mcu),
    unit = 0 \/ unit = 1 ->
    timer2_tick (timer2_start unit s) = 0 /\
    TCCR2 (timer2_start unit s) = (if unit =? 0 then 0x0B else 0x09) /\
    Z.testbit (TIMSK (timer2_start unit s)) 7 = true /\
    Z.land (TIMSK (timer2_start unit s)) 0x7F = Z.land (TIMSK s) 0x7F /\
    SREG_I (timer2_start unit s) = true /\
    OCR2 (timer2_start unit s) = OCR2 s.
Proof.
  intros unit s [-> | ->]; cbn [timer2_start Z.eqb Pos.eqb];
    repeat split; try apply ocie2_set; apply mask_low7_after_set.
Qed.

Lemma timer2_start_configures_witness :
  TCCR2 (timer2_start 1 (set_TIMSK 0x05 (power_on []))) = 0x09 /\
  TIMSK (timer2_start 1 (set_TIMSK 0x05 (power_on []))) = 0x85.
Proof.
  destruct (timer2_start_configures 1 (set_TIMSK 0x05 (power_on [])))
    as (_ & Hc & _).
  - right. reflexivity.
  - split; [exact Hc | vm_compute; reflexivity].
Defined.

(** X2: once started with unit 0 or 1, every compare match increments the
    counter by one and the counter wraps at 16 bits: after [k] matches it
    holds [k mod 65536].  Nothing guards against the overflow. *)
Theorem timer2_counts_matches :
  forall (unit : Z) (s : mcu) (k : nat),
    unit = 0 \/ unit = 1 ->
    timer2_tick (Nat.iter k irq_step (timer2_start unit s))
    = Z.of_nat k mod 65536.
Proof.
  intros unit s k Hu.
  assert (Hie : Z.testbit (TIMSK (timer2_start unit s)) 7 = true)
    by (destruct Hu as [-> | ->]; apply ocie2_set).
  assert (Hgi : SREG_I (timer2_start unit s) = true)
    by (destruct Hu as [-> | ->]; reflexivity).
  assert (Ht : timer2_tick (timer2_start unit s) = 0)
    by (destruct Hu as [-> | ->]; reflexivity).
  rewrite (iter_irq_step_enabled _ k Hie Hgi).
  destruct k as [| k']; [exact Ht |].
  cbn [timer2_tick set_timer2_tick]. rewrite Ht. reflexivity.
Qed.

Lemma timer2_counts_matches_witness :
  timer2_tick (Nat.iter 3 irq_step (timer2_start 0 (power_on []))) = 3.
Proof.
  rewrite (timer2_counts_matches 0 (power_on []) 3).
  - reflexivity.
  - left. reflexivity.
Defined.


(** X4: whenever [wait_ms] returns it leaves [OCR2 = 250],
    [TCCR2 = 0b00001011] (the timer clock is not switched off), OCIE2 cleared
    with the other mask bits as they were, and interrupts globally enabled;
    it has made exactly one [timer2_start(0)] and one [timer2_stop] call, the
    ports and the two C statics are untouched, and later compare matches no
    longer move the counter. *)
Theorem wait_ms_postcondition :
  forall (time_val : Z) (s s' : mcu) (k : nat),
    wait_ms time_val s = Some s' ->
    OCR2 s' = 250 /\ TCCR2 s' = 0x0B /\
    Z.testbit (TIMSK s') 7 = false /\
    Z.land (TIMSK s') 0x7F = Z.land (TIMSK s) 0x7F /\
    SREG_I s' = true /\
    journal s' = CallTimer2Stop :: CallTimer2Start 0 :: CallWaitMs time_val :: journal s /\
    DDRC s' = DDRC s /\ PORTC s' = PORTC s /\ DDRE s' = DDRE s /\ PORTE s' = PORTE s /\
    old_value s' = old_value s /\ coil_position s' = coil_position s /\
    Nat.iter k irq_step s' = s'.
Proof.
  intros time_val s s' k Hrun. apply wait_ms_inv in Hrun.
  destruct Hrun as (t & used & rest & -> & _).
  split; [reflexivity |]. split; [reflexivity |].
  split; [apply ocie2_cleared |].
  split; [apply mask_low7_set_clear |].
  do 8 (split; [reflexivity |]).
  apply iter_irq_step_masked. left. apply ocie2_cleared.
Qed.

Lemma wait_ms_postcondition_witness :
  exists s',
    wait_ms 3 (power_on (steady 5)) = Some s' /\
    TCCR2 s' = 0x0B /\ SREG_I s' = true /\ irq_step s' = s'.
Proof.
  exists (mk_mcu 250 0x0B 0 true 0 0 0 0 3 0x03 0x1 (steady 2)
                 [CallTimer2Stop; CallTimer2Start 0; CallWaitMs 3]).
  assert (Hrun : wait_ms 3 (power_on (steady 5))
                 = Some (mk_mcu 250 0x0B 0 true 0 0 0 0 3 0x03 0x1 (steady 2)
                           [CallTimer2Stop; CallTimer2Start 0; CallWaitMs 3]))
    by (vm_compute; reflexivity).
  split; [exact Hrun |].
  destruct (wait_ms_postcondition 3 (power_on (steady 5)) _ 1%nat Hrun)
    as (_ & Hc & _ & _ & Hi & _ & _ & _ & _ & _ & _ & _ & Hfrozen).
  repeat split; assumption.
Defined.

(** ** Port C set-up for the buttons and the encoder *)

Lemma ddrc_buttons_low x : Z.land (uint8 (Z.land x 0xC0)) 0x3F = 0.
Proof. by_bits. Qed.
Lemma ddrc_buttons_high x : Z.land (uint8 (Z.land x 0xC0)) 0xC0 = Z.land x 0xC0.
Proof. by_bits. Qed.
Lemma portc_buttons_low x : Z.land (uint8 (Z.lor x 0x3F)) 0x3F = 0x3F.
Proof. by_bits. Qed.
Lemma portc_buttons_high x : Z.land (uint8 (Z.lor x 0x3F)) 0xC0 = Z.land x 0xC0.
Proof. by_bits. Qed.
Lemma ddrc_encoder_high x : Z.land (uint8 (Z.land x 0x3F)) 0xC0 = 0.
Proof. by_bits. Qed.
Lemma ddrc_encoder_low x : Z.land (uint8 (Z.land x 0x3F)) 0x3F = Z.land x 0x3F.
Proof. by_bits. Qed.
Lemma portc_encoder_high x : Z.land (uint8 (Z.lor x 0xC0)) 0xC0 = 0xC0.
Proof. by_bits. Qed.
Lemma portc_encoder_low x : Z.land (uint8 (Z.lor x 0xC0)) 0x3F = Z.land x 0x3F.
Proof. by_bits. Qed.
Lemma ddrc_buttons_twice x :
  uint8 (Z.land (uint8 (Z.land x 0xC0)) 0xC0) = uint8 (Z.land x 0xC0).
Proof. by_bits. Qed.
Lemma portc_buttons_twice x :
  uint8 (Z.lor (uint8 (Z.lor x 0x3F)) 0x3F) = uint8 (Z.lor x 0x3F).
Proof. by_bits. Qed.
Lemma ddrc_encoder_twice x :
  uint8 (Z.land (uint8 (Z.land x 0x3F)) 0x3F) = uint8 (Z.land x 0x3F).
Proof. by_bits. Qed.
Lemma portc_encoder_twice x :
  uint8 (Z.lor (uint8 (Z.lor x 0xC0)) 0xC0) = uint8 (Z.lor x 0xC0).
Proof. by_bits. Qed.
Lemma ddrc_both x : uint8 (Z.land (uint8 (Z.land x 0x3F)) 0xC0) = 0.
Proof. by_bits. Qed.
Lemma ddrc_both' x : uint8 (Z.land (uint8 (Z.land x 0xC0)) 0x3F) = 0.
Proof. by_bits. Qed.
Lemma portc_both x : uint8 (Z.lor (uint8 (Z.lor x 0x3F)) 0xC0) = 0xFF.
Proof. by_bits. Qed.
Lemma portc_both' x : uint8 (Z.lor (uint8 (Z.lor x 0xC0)) 0x3F) = 0xFF.
Proof. by_bits. Qed.

(** X5: [init_push_buttons] turns PC0-PC5 into inputs with pull-ups and
    leaves the two encoder lines PC6-PC7 as they are, in both [DDRC] and
    [PORTC]; calling it again changes nothing. *)
Theorem init_push_buttons_configures :
  forall s : mcu,
    Z.land (DDRC (init_push_buttons s)) 0x3F = 0 /\
    Z.land (PORTC (init_push_buttons s)) 0x3F = 0x3F /\
    Z.land (DDRC (init_push_buttons s)) 0xC0 = Z.land (DDRC s) 0xC0 /\
    Z.land (PORTC (init_push_buttons s)) 0xC0 = Z.land (PORTC s) 0xC0 /\
    init_push_buttons (init_push_buttons s) = init_push_buttons s.
Proof.
  intros s. unfold init_push_buttons.
  cbn [DDRC PORTC set_DDRC set_PORTC].
  split; [apply ddrc_buttons_low |].
  split; [apply portc_buttons_low |].
  split; [apply ddrc_buttons_high |].
  split; [apply portc_buttons_high |].
  unfold set_PORTC, set_DDRC. cbn.
  rewrite ddrc_buttons_twice, portc_buttons_twice. reflexivity.
Qed.

(** X6: [shaft_encoder_init] turns PC6-PC7 into inputs with pull-ups and
    leaves the six button lines PC0-PC5 as they are; calling it again changes
    nothing. *)
Theorem shaft_encoder_init_configures :
  forall s : mcu,
    Z.land (DDRC (shaft_encoder_init s)) 0xC0 = 0 /\
    Z.land (PORTC (shaft_encoder_init s)) 0xC0 = 0xC0 /\
    Z.land (DDRC (shaft_encoder_init s)) 0x3F = Z.land (DDRC s) 0x3F /\
    Z.land (PORTC (shaft_encoder_init s)) 0x3F = Z.land (PORTC s) 0x3F /\
    shaft_encoder_init (shaft_encoder_init s) = shaft_encoder_init s.
Proof.
  intros s. unfold shaft_encoder_init.
  cbn [DDRC PORTC set_DDRC set_PORTC].
  split; [apply ddrc_encoder_high |].
  split; [apply portc_encoder_high |].
  split; [apply ddrc_encoder_low |].
  split; [apply portc_encoder_low |].
  unfold set_PORTC, set_DDRC. cbn.
  rewrite ddrc_encoder_twice, portc_encoder_twice. reflexivity.
Qed.

(** X7: the two port C set-ups do not disturb each other: in either order
    they give the same state, with all of port C an input ([DDRC = 0]) and
    every pull-up on ([PORTC = 0xFF]), whatever the registers held before. *)
Theorem port_c_inits_commute :
  forall s : mcu,
    init_push_buttons (shaft_encoder_init s)
    = shaft_encoder_init (init_push_buttons s) /\
    DDRC (init_push_buttons (shaft_encoder_init s)) = 0 /\
    PORTC (init_push_buttons (shaft_encoder_init s)) = 0xFF.
Proof.
  intros s. unfold init_push_buttons, shaft_encoder_init.
  cbn [DDRC PORTC set_DDRC set_PORTC].
  split; [| split; [apply ddrc_both | apply portc_both']].
  unfold set_PORTC, set_DDRC. cbn.
  rewrite ddrc_both, ddrc_both', portc_both, portc_both'. reflexivity.
Qed.

(** ** Readers: what a result tells about the inputs *)

(** The scan never stops on a released button. *)
Lemma scan_buttons_sound pinc :
  forall n,
    Z.of_nat n <= 8 ->
    -1 <= scan_buttons pinc n < Z.of_nat n /\
    (0 <= scan_buttons pinc n ->
     pressed (pinc (scan_buttons pinc n)) (scan_buttons pinc n)) /\
    (forall j, scan_buttons pinc n < j < Z.of_nat n -> ~ pressed (pinc j) j).
Proof.
  induction n as [| n IH]; intros Hn.
  - cbn [scan_buttons]. repeat split; try lia.
  - cbn [scan_buttons]. rewrite button_test by lia.
    destruct (Z.testbit (pinc (Z.of_nat n)) (Z.of_nat n)) eqn:Hbit; cbn [negb].
    + destruct (IH ltac:(lia)) as (Hrange & Hdown & Hup).
      repeat split; try lia; try assumption.
      intros j Hj. destruct (Z.eq_dec j (Z.of_nat n)) as [-> | Hne].
      * unfold pressed. rewrite Hbit. discriminate.
      * apply Hup. lia.
    + repeat split; try lia.
      intros _. exact Hbit.
Qed.

(** The scan looks at bit [k] of the sample taken in iteration [k] only. *)
Lemma scan_buttons_ext pinc pinc' :
  forall n,
    Z.of_nat n <= 8 ->
    (forall k, 0 <= k < Z.of_nat n ->
       Z.testbit (pinc k) k = Z.testbit (pinc' k) k) ->
    scan_buttons pinc n = scan_buttons pinc' n.
Proof.
  induction n as [| n IH]; intros Hn Hsame; [reflexivity |].
  cbn [scan_buttons]. rewrite !button_test by lia.
  rewrite (Hsame (Z.of_nat n)) by lia.
  rewrite IH; [reflexivity | lia |].
  intros k Hk. apply Hsame. lia.
Qed.

(** X8: the result of [read_push_buttons] is always between 0 and 6; a
    result of 0 means that none of the six inputs read low, and a result
    [r > 0] means that input [r - 1] read low and every higher input read
    high: a released button is never reported. *)
Theorem read_push_buttons_sound :
  forall pinc : Z -> Z,
    0 <= read_push_buttons pinc <= 6 /\
    (read_push_buttons pinc = 0 ->
     forall j, 0 <= j <= 5 -> ~ pressed (pinc j) j) /\
    (0 < read_push_buttons pinc ->
     pressed (pinc (read_push_buttons pinc - 1)) (read_push_buttons pinc - 1) /\
     forall j, read_push_buttons pinc - 1 < j <= 5 -> ~ pressed (pinc j) j).
Proof.
  intros pinc. unfold read_push_buttons.
  destruct (scan_buttons_sound pinc 6 ltac:(cbn; lia)) as (Hrange & Hdown & Hup).
  change (Z.of_nat 6) with 6 in *.
  rewrite uint8_small by lia.
  split; [lia |]. split.
  - intros Hzero j Hj. apply Hup. lia.
  - intros Hpos.
    replace (scan_buttons pinc 6 + 1 - 1) with (scan_buttons pinc 6) by lia.
    split; [apply Hdown; lia |].
    intros j Hj. apply Hup. lia.
Qed.

Lemma read_push_buttons_sound_witness :
  pressed 0xF7 (read_push_buttons (fun _ => 0xF7) - 1) /\
  (forall j, 0 <= j <= 5 -> ~ pressed 0xFF j).
Proof.
  destruct (read_push_buttons_sound (fun _ => 0xF7)) as (_ & _ & Hfound).
  destruct (read_push_buttons_sound (fun _ => 0xFF)) as (_ & Hnone & _).
  split.
  - apply Hfound. vm_compute. reflexivity.
  - apply Hnone. vm_compute. reflexivity.
Defined.

(** X9: [read_push_buttons] depends on bit [k] of the sample taken in
    iteration [k] and on nothing else: the encoder lines on bits 6-7 of
    [PINC], and bits scanned in other iterations, cannot change the result. *)
Theorem read_push_buttons_ignores_other_bits :
  forall pinc pinc' : Z -> Z,
    (forall k, 0 <= k <= 5 -> Z.testbit (pinc k) k = Z.testbit (pinc' k) k) ->
    read_push_buttons pinc = read_push_buttons pinc'.
Proof.
  intros pinc pinc' Hsame. unfold read_push_buttons.
  rewrite (scan_buttons_ext pinc pinc' 6); [reflexivity | cbn; lia |].
  intros k Hk. apply Hsame. cbn in Hk. lia.
Qed.

Lemma read_push_buttons_ignores_other_bits_witness :
  read_push_buttons (fun _ => 0xF7) = read_push_buttons (fun _ => 0x37).
Proof.
  apply read_push_buttons_ignores_other_bits. intros k Hk.
  assert (k = 0 \/ k = 1 \/ k = 2 \/ k = 3 \/ k = 4 \/ k = 5)
    as [-> | [-> | [-> | [-> | [-> | ->]]]]] by lia; reflexivity.
Defined.

Lemma encoder_sample_masked pinc :
  Z.shiftr (uint8 (Z.land pinc 0xC0)) 6 = Z.shiftr (uint8 pinc) 6.
Proof.
  apply Z.bits_inj'. intros n Hn.
  rewrite !Z.shiftr_spec by lia. rewrite !uint8_bits by lia.
  rewrite Z.land_spec.
  destruct (Z.ltb_spec (n + 6) 8) as [Hlo | Hhi]; [| reflexivity].
  assert (n = 0 \/ n = 1) as [-> | ->] by lia;
    cbn [Z.add Pos.add Pos.succ andb];
    eval_const_bits; rewrite Bool.andb_true_r; reflexivity.
Qed.

(** X10: [read_shaft_encoder] returns -1, 0 or 1, keeps the stored state
    within 0..3, reads bits 6-7 of [PINC] only (the button lines cannot
    disturb it), and writes nothing but its own static. *)
Theorem read_shaft_encoder_range :
  forall (pinc : Z) (s : mcu),
    (fst (read_shaft_encoder pinc s) = -1 \/
     fst (read_shaft_encoder pinc s) = 0 \/
     fst (read_shaft_encoder pinc s) = 1) /\
    0 <= old_value (snd (read_shaft_encoder pinc s)) <= 3 /\
    read_shaft_encoder (Z.land pinc 0xC0) s = read_shaft_encoder pinc s /\
    set_old_value (old_value s) (snd (read_shaft_encoder pinc s)) = s.
Proof.
  intros pinc s.
  pose proof (encoder_sample_range pinc) as Hb.
  split; [| split; [| split]].
  - unfold read_shaft_encoder. rewrite encoder_new_value. cbn [fst].
    destruct (old_value s =? 3);
      destruct (Z.shiftr (uint8 pinc) 6 =? 2);
      destruct (Z.shiftr (uint8 pinc) 6 =? 1); auto.
  - unfold read_shaft_encoder. rewrite encoder_new_value.
    cbn [snd old_value set_old_value]. lia.
  - unfold read_shaft_encoder. rewrite encoder_sample_masked. reflexivity.
  - unfold read_shaft_encoder. cbn [snd]. destruct s; reflexivity.
Qed.

(** X11: a rotation is reported only by a call that directly follows a call
    whose sample showed both switches released (11); in particular no two
    consecutive calls both report a rotation, whatever the samples. *)
Theorem read_shaft_encoder_no_double_count :
  forall (pinc1 pinc2 : Z) (s : mcu),
    fst (read_shaft_encoder pinc2 (snd (read_shaft_encoder pinc1 s))) <> 0 ->
    Z.shiftr (uint8 pinc1) 6 = 3 /\ fst (read_shaft_encoder pinc1 s) = 0.
Proof.
  intros pinc1 pinc2 s. unfold read_shaft_encoder.
  rewrite !encoder_new_value. cbn [fst snd old_value set_old_value].
  destruct (Z.eqb_spec (Z.shiftr (uint8 pinc1) 6) 3) as [H3 | H3].
  - intros _. split; [exact H3 |]. rewrite H3.
    destruct (old_value s =? 3); reflexivity.
  - intros Hne. contradiction Hne. reflexivity.
Qed.

Lemma read_shaft_encoder_no_double_count_witness :
  Z.shiftr (uint8 0xC0) 6 = 3 /\ fst (read_shaft_encoder 0xC0 (power_on [])) = 0.
Proof.
  apply (read_shaft_encoder_no_double_count 0xC0 0x80 (power_on [])).
  vm_compute. discriminate.
Defined.

(** ** Stepper: pins, duration and phase arithmetic *)

Lemma porte_init_final p :
  uint8 (Z.land (uint8 (Z.land p 0x8F)) 0x0F) = Z.land p 0x0F.
Proof. by_bits. Qed.

Lemma ddre_init_high d : Z.land (uint8 (Z.lor d 0xF0)) 0xF0 = 0xF0.
Proof. by_bits. Qed.

Lemma ddre_init_low d : Z.land (uint8 (Z.lor d 0xF0)) 0x0F = Z.land d 0x0F.
Proof. by_bits. Qed.

Lemma bits_15_high n : 4 <= n -> Z.testbit 0xF n = false.
Proof. intros Hn. apply Z.bits_above_log2; [lia | cbn; lia]. Qed.

(** The pin-driving statements keep PE0-PE3. *)
Lemma drive_coils_low_nibble p c :
  Z.land (uint8 (Z.lor (uint8 (Z.land p 0x0F)) (int8 (Z.shiftl c 4)))) 0x0F
  = Z.land p 0x0F.
Proof.
  apply Z.bits_inj'. intros n Hn.
  rewrite !Z.land_spec, uint8_bits, Z.lor_spec, uint8_bits, Z.land_spec by lia.
  destruct (Z.ltb_spec n 4) as [Hlo | Hhi].
  - rewrite int8_bits by lia. rewrite Z.shiftl_spec_low by lia.
    destruct (Z.ltb_spec n 8) as [_ | ?]; [| lia].
    cbn [andb]. rewrite Bool.orb_false_r, <- Bool.andb_assoc, Bool.andb_diag.
    reflexivity.
  - rewrite bits_15_high by lia. rewrite !Bool.andb_false_r. reflexivity.
Qed.

Lemma land_15_idem p : Z.land (Z.land p 0x0F) 0x0F = Z.land p 0x0F.
Proof. rewrite <- Z.land_assoc. reflexivity. Qed.

Lemma concat_repeat_comm {A : Type} (b : list A) k :
  b ++ concat (repeat b k) = concat (repeat b k) ++ b.
Proof.
  induction k as [| k IH]; cbn [repeat concat].
  - rewrite app_nil_r. reflexivity.
  - rewrite <- app_assoc, IH. reflexivity.
Qed.

(** One iteration in full: what [step_once] changes and what it costs. *)
Lemma step_once_trace adv s s' :
  step_once adv s = Some s' ->
  coil_position s' = adv (coil_position s) /\
  journal s' = wait2_calls ++ journal s /\
  Z.land (PORTE s') 0x0F = Z.land (PORTE s) 0x0F /\
  DDRE s' = DDRE s /\ DDRC s' = DDRC s /\ PORTC s' = PORTC s /\
  old_value s' = old_value s /\
  exists used, pending s = used ++ pending s' /\ 2 <= count_irq used.
Proof.
  unfold step_once. intros H. apply wait_ms_inv in H.
  destruct H as (t & used & rest & -> & Happ & Hle & Hbound).
  split; [reflexivity |]. split; [reflexivity |].
  split; [apply drive_coils_low_nibble |].
  do 4 (split; [reflexivity |]).
  exists used. split; [exact Happ | lia].
Qed.

Lemma for_loop_trace adv num_steps :
  forall fuel i s s',
    for_loop fuel i num_steps (step_once adv) s = Some s' ->
    journal s' = concat (repeat wait2_calls (Z.to_nat (num_steps - i))) ++ journal s /\
    Z.land (PORTE s') 0x0F = Z.land (PORTE s) 0x0F /\
    DDRE s' = DDRE s /\ DDRC s' = DDRC s /\ PORTC s' = PORTC s /\
    old_value s' = old_value s /\
    exists used,
      pending s = used ++ pending s' /\
      2 * Z.of_nat (Z.to_nat (num_steps - i)) <= count_irq used.
Proof.
  assert (Hstop : forall i s, num_steps <= i ->
            journal s = concat (repeat wait2_calls (Z.to_nat (num_steps - i))) ++ journal s /\
            Z.land (PORTE s) 0x0F = Z.land (PORTE s) 0x0F /\
            DDRE s = DDRE s /\ DDRC s = DDRC s /\ PORTC s = PORTC s /\
            old_value s = old_value s /\
            exists used,
              pending s = used ++ pending s /\
              2 * Z.of_nat (Z.to_nat (num_steps - i)) <= count_irq used).
  { intros i s Hge. replace (Z.to_nat (num_steps - i)) with O by lia.
    repeat split. exists []. split; [reflexivity | cbn; lia]. }
  induction fuel as [| fuel IH]; intros i s s' Hrun; cbn [for_loop] in Hrun;
    destruct (Z.ltb_spec i num_steps) as [Hlt | Hge]; try discriminate.
  - injection Hrun as <-. apply Hstop. exact Hge.
  - destruct (step_once adv s) as [s1 |] eqn:Hbody; cbn [bind] in Hrun; [| discriminate].
    apply IH in Hrun. apply step_once_trace in Hbody.
    destruct Hbody as (_ & Hj1 & Hp1 & Hd1 & Hc1 & Hpc1 & Ho1 & used1 & Happ1 & Hcnt1).
    destruct Hrun as (Hj & Hp & Hd & Hc & Hpc & Ho & used2 & Happ2 & Hcnt2).
    replace (Z.to_nat (num_steps - i)) with (S (Z.to_nat (num_steps - (i + 1)))) by lia.
    split.
    { rewrite Hj, Hj1. cbn [repeat concat].
      rewrite concat_repeat_comm, <- app_assoc. reflexivity. }
    split; [congruence |]. split; [congruence |]. split; [congruence |].
    split; [congruence |]. split; [congruence |].
    exists (used1 ++ used2). split.
    + rewrite Happ1, Happ2, app_assoc. reflexivity.
    + rewrite count_irq_app. lia.
  - injection Hrun as <-. apply Hstop. exact Hge.
Qed.

(** The whole call, whenever it returns. *)
Lemma move_stepper_trace num_steps direction s s' :
  move_stepper_motor_by_step num_steps direction s = Some s' ->
  journal s' = concat (repeat wait2_calls (step_count num_steps direction)) ++ journal s /\
  PORTE s' = Z.land (PORTE s) 0x0F /\
  DDRE s' = DDRE s /\ DDRC s' = DDRC s /\ PORTC s' = PORTC s /\
  old_value s' = old_value s /\
  exists used,
    pending s = used ++ pending s' /\
    2 * Z.of_nat (step_count num_steps direction) <= count_irq used.
Proof.
  assert (Hfin : forall s1,
            PORTE (set_PORTE (uint8 (Z.land (PORTE s1) 0x0F)) s1) = Z.land (PORTE s1) 0x0F).
  { intros s1. cbn [PORTE set_PORTE]. apply uint8_small.
    pose proof (land_15_range (PORTE s1)). lia. }
  unfold move_stepper_motor_by_step, step_count. intros Hrun.
  destruct (direction =? 1); cbn [orb].
  - apply bind_inv in Hrun. destruct Hrun as (s1 & Hloop & Hret).
    injection Hret as <-. apply for_loop_trace in Hloop.
    rewrite Z.sub_0_r in Hloop.
    destruct Hloop as (Hj & Hp & Hd & Hc & Hpc & Ho & used & Happ & Hcnt).
    rewrite Hfin. repeat split; try assumption.
    exists used. split; assumption.
  - destruct (direction =? -1).
    + apply bind_inv in Hrun. destruct Hrun as (s1 & Hloop & Hret).
      injection Hret as <-. apply for_loop_trace in Hloop.
      rewrite Z.sub_0_r in Hloop.
      destruct Hloop as (Hj & Hp & Hd & Hc & Hpc & Ho & used & Happ & Hcnt).
      rewrite Hfin. repeat split; try assumption.
      exists used. split; assumption.
    + cbn [bind] in Hrun. injection Hrun as <-. rewrite Hfin.
      repeat split. exists []. split; [reflexivity | cbn; lia].
Qed.

(** X12: whenever [stepper_init] returns, PE4-PE7 are outputs, the four coil
    pins are low, PE0-PE3 are untouched in both [DDRE] and [PORTE], and the
    coil position is the one it was: initialisation does not reset the
    phase.  It returns when the main line polls promptly and two compare
    matches arrive. *)
Theorem stepper_init_postcondition :
  forall s : mcu,
    (forall s', stepper_init s = Some s' ->
       Z.land (DDRE s') 0xF0 = 0xF0 /\
       Z.land (DDRE s') 0x0F = Z.land (DDRE s) 0x0F /\
       PORTE s' = Z.land (PORTE s) 0x0F /\
       coil_position s' = coil_position s /\
       journal s' = wait2_calls ++ journal s) /\
    (prompt (pending s) = true -> 2 <= count_irq (pending s) ->
     exists s', stepper_init s = Some s').
Proof.
  intros s. rewrite stepper_init_unfold. split.
  - intros s' Hrun. apply bind_inv in Hrun.
    destruct Hrun as (s1 & Hwait & Hret). injection Hret as <-.
    apply wait_ms_inv in Hwait. destruct Hwait as (t & used & rest & -> & _).
    split; [apply ddre_init_high |].
    split; [apply ddre_init_low |].
    split; [apply porte_init_final |].
    split; reflexivity.
  - intros Hp Hcnt.
    match goal with
    | |- context [wait_ms 2 ?pre] =>
        destruct (wait_ms_prompt 2 pre ltac:(lia) Hp Hcnt) as (used & rest & Hrun & _)
    end.
    rewrite Hrun. cbn [bind]. eexists. reflexivity.
Qed.

Lemma stepper_init_postcondition_witness :
  exists s',
    stepper_init (set_PORTE 0xFF (power_on (steady 2))) = Some s' /\
    PORTE s' = 0x0F /\ coil_position s' = 1.
Proof.
  destruct (stepper_init_postcondition (set_PORTE 0xFF (power_on (steady 2))))
    as (Hpost & Hlive).
  destruct (Hlive ltac:(reflexivity) ltac:(vm_compute; discriminate)) as (s' & Hrun).
  exists s'. split; [exact Hrun |].
  destruct (Hpost s' Hrun) as (_ & _ & Hp & Hc & _).
  split; [exact Hp | exact Hc].
Defined.

(** X13: whenever [move_stepper_motor_by_step] returns, [PORTE] holds its
    old low nibble and a zero high nibble: PE0-PE3 are never disturbed.
    [DDRE], port C and the encoder's stored state are untouched as well. *)
Theorem move_stepper_frame :
  forall (num_steps direction : Z) (s s' : mcu),
    move_stepper_motor_by_step num_steps direction s = Some s' ->
    PORTE s' = Z.land (PORTE s) 0x0F /\
    DDRE s' = DDRE s /\ DDRC s' = DDRC s /\ PORTC s' = PORTC s /\
    old_value s' = old_value s.
Proof.
  intros num_steps direction s s' Hrun.
  apply move_stepper_trace in Hrun.
  destruct Hrun as (_ & Hp & Hd & Hc & Hpc & Ho & _).
  repeat split; assumption.
Qed.

Lemma move_stepper_frame_witness :
  exists s',
    move_stepper_motor_by_step 2 1 (set_PORTE 0xA5 (power_on (steady 4))) = Some s' /\
    PORTE s' = 0x05.
Proof.
  eexists. split; [vm_compute; reflexivity |].
  match goal with
  | |- PORTE ?x = _ =>
      destruct (move_stepper_frame 2 1 (set_PORTE 0xA5 (power_on (steady 4))) x
                  ltac:(vm_compute; reflexivity)) as (Hp & _)
  end.
  exact Hp.
Defined.

(** X14: a returning call has made one [wait_ms(2)] per step taken and no
    other timer call, and has let at least two compare matches go by per
    step: [num_steps] steps take at least [2 * num_steps] timer periods.  No
    step is taken, and no wait made, when [num_steps <= 0] or the direction
    is neither +1 nor -1. *)
Theorem move_stepper_waits_per_step :
  forall (num_steps direction : Z) (s s' : mcu),
    move_stepper_motor_by_step num_steps direction s = Some s' ->
    journal s' = concat (repeat wait2_calls (step_count num_steps direction)) ++ journal s /\
    coil_position s'
    = Nat.iter (step_count num_steps direction) (advance direction) (coil_position s) /\
    exists used,
      pending s = used ++ pending s' /\
      2 * Z.of_nat (step_count num_steps direction) <= count_irq used.
Proof.
  intros num_steps direction s s' Hrun.
  pose proof (move_stepper_inv _ _ _ _ Hrun) as (Hcoil & _).
  apply move_stepper_trace in Hrun.
  destruct Hrun as (Hj & _ & _ & _ & _ & _ & Hused).
  split; [exact Hj |]. split; [| exact Hused].
  rewrite Hcoil. clear Hcoil Hj Hused. unfold step_count, advance.
  destruct (direction =? 1); cbn [orb]; [reflexivity |].
  destruct (direction =? -1); [reflexivity |].
  induction (Z.to_nat num_steps) as [| k IH]; [reflexivity |].
  rewrite Nat.iter_succ. exact IH.
Qed.

Lemma move_stepper_waits_per_step_witness :
  exists s' used,
    move_stepper_motor_by_step 2 1 (power_on (steady 5)) = Some s' /\
    journal s' = wait2_calls ++ wait2_calls /\
    steady 5 = used ++ pending s' /\ 4 <= count_irq used.
Proof.
  assert (Hrun : move_stepper_motor_by_step 2 1 (power_on (steady 5))
                 = Some (mk_mcu 250 0x0B 0 true 0 0 0 0 2 0x03 0x4 (steady 1)
                           (wait2_calls ++ wait2_calls)))
    by (vm_compute; reflexivity).
  destruct (move_stepper_waits_per_step 2 1 _ _ Hrun) as (Hj & _ & used & Happ & Hcnt).
  eexists. exists used. split; [exact Hrun |].
  repeat split; assumption.
Defined.

(** Under prompt polling the call returns after exactly two compare matches
    per step and leaves a prompt schedule behind. *)
Lemma move_stepper_prompt_exact num_steps direction s :
  prompt (pending s) = true ->
  2 * Z.of_nat (step_count num_steps direction) <= count_irq (pending s) ->
  exists s',
    move_stepper_motor_by_step num_steps direction s = Some s' /\
    prompt (pending s') = true /\
    count_irq (pending s')
    = count_irq (pending s) - 2 * Z.of_nat (step_count num_steps direction).
Proof.
  intros Hp Hcnt. unfold move_stepper_motor_by_step, step_count in *.
  destruct (direction =? 1); cbn [orb] in *.
  - destruct (for_loop_prompt advance_cw num_steps (Z.to_nat num_steps) 0 s)
      as (s1 & Hrun & Hp1 & Hc1); try assumption; try lia.
    rewrite Hrun. cbn [bind]. eexists. split; [reflexivity |].
    cbn [pending set_PORTE]. split; [exact Hp1 | lia].
  - destruct (direction =? -1).
    + destruct (for_loop_prompt advance_ccw num_steps (Z.to_nat num_steps) 0 s)
        as (s1 & Hrun & Hp1 & Hc1); try assumption; try lia.
      rewrite Hrun. cbn [bind]. eexists. split; [reflexivity |].
      cbn [pending set_PORTE]. split; [exact Hp1 | lia].
    + cbn [bind]. eexists. split; [reflexivity |].
      cbn [pending set_PORTE]. split; [exact Hp | lia].
Qed.

(** X15: when the main line polls at least once per timer period and the
    timer keeps firing, [move_stepper_motor_by_step] returns after exactly
    two compare matches per step taken, and what is left of the schedule is
    still polled promptly, so that calls can follow one another. *)
Theorem move_stepper_duration :
  forall (num_steps direction : Z) (s : mcu),
    prompt (pending s) = true ->
    2 * Z.of_nat (step_count num_steps direction) <= count_irq (pending s) ->
    exists s',
      move_stepper_motor_by_step num_steps direction s = Some s' /\
      prompt (pending s') = true /\
      count_irq (pending s')
      = count_irq (pending s) - 2 * Z.of_nat (step_count num_steps direction).
Proof.
  intros num_steps direction s Hp Hcnt.
  apply move_stepper_prompt_exact; assumption.
Qed.

Lemma move_stepper_duration_witness :
  exists s',
    move_stepper_motor_by_step 3 (-1) (power_on (steady 7)) = Some s' /\
    count_irq (pending s') = 1.
Proof.
  destruct (move_stepper_duration 3 (-1) (power_on (steady 7)))
    as (s' & Hrun & _ & Hc).
  - reflexivity.
  - vm_compute. discriminate.
  - exists s'. split; [exact Hrun | exact Hc].
Defined.

Lemma advance_cw_ccw_inverse c :
  one_hot4 c -> advance_ccw (advance_cw c) = c /\ advance_cw (advance_ccw c) = c.
Proof.
  unfold one_hot4. intros [-> | [-> | [-> | ->]]]; split; reflexivity.
Qed.

Lemma advance_opposite d c :
  d = 1 \/ d = -1 -> one_hot4 c -> advance (- d) (advance d c) = c.
Proof.
  intros [-> | ->] Hc; cbn [Z.opp]; unfold advance; cbn [Z.eqb Pos.eqb];
    apply advance_cw_ccw_inverse; exact Hc.
Qed.

Lemma iter_advance_opposite d c k :
  d = 1 \/ d = -1 -> one_hot4 c ->
  Nat.iter k (advance (- d)) (Nat.iter k (advance d) c) = c.
Proof.
  intros Hd Hc. induction k as [| k IH]; [reflexivity |].
  rewrite Nat.iter_succ_r, Nat.iter_succ.
  rewrite advance_opposite; [exact IH | exact Hd |].
  apply one_hot4_iter. exact Hc.
Qed.

Lemma four_steps_cycle_any d c : one_hot4 c -> Nat.iter 4 (advance d) c = c.
Proof.
  unfold advance.
  destruct (d =? 1); [| destruct (d =? -1)]; unfold one_hot4;
    intros [-> | [-> | [-> | ->]]]; reflexivity.
Qed.

Lemma iter_advance_mod4 d c q r :
  one_hot4 c ->
  Nat.iter (4 * q + r) (advance d) c = Nat.iter r (advance d) c.
Proof.
  intros Hc. induction q as [| q IH].
  - reflexivity.
  - replace (4 * S q + r)%nat with (4 + (4 * q + r))%nat by lia.
    rewrite Nat.iter_add, IH.
    apply four_steps_cycle_any. apply one_hot4_iter. exact Hc.
Qed.

(** X16: stepping [num_steps] in one direction and then [num_steps] in the
    opposite direction brings a one-hot coil position back to where it
    was. *)
Theorem move_stepper_there_and_back :
  forall (num_steps direction : Z) (s s1 s2 : mcu),
    direction = 1 \/ direction = -1 ->
    one_hot4 (coil_position s) ->
    move_stepper_motor_by_step num_steps direction s = Some s1 ->
    move_stepper_motor_by_step num_steps (- direction) s1 = Some s2 ->
    coil_position s2 = coil_position s.
Proof.
  intros num_steps direction s s1 s2 Hd Hhot Hgo Hback.
  apply move_stepper_inv in Hgo. destruct Hgo as (Hc1 & _).
  apply move_stepper_inv in Hback. destruct Hback as (Hc2 & _).
  rewrite Hc2, Hc1. apply iter_advance_opposite; assumption.
Qed.

Lemma move_stepper_there_and_back_witness :
  exists s1 s2,
    move_stepper_motor_by_step 3 1 (power_on (steady 12)) = Some s1 /\
    move_stepper_motor_by_step 3 (-1) s1 = Some s2 /\
    coil_position s2 = 1.
Proof.
  eexists. eexists.
  split; [vm_compute; reflexivity |].
  split; [vm_compute; reflexivity |].
  match goal with
  | |- coil_position ?x2 = _ =>
      apply (move_stepper_there_and_back 3 1 (power_on (steady 12))
               (mk_mcu 250 0x0B 0 true 0 0 0 0 2 0x03 0x8 (steady 6)
                  (wait2_calls ++ wait2_calls ++ wait2_calls)) x2)
  end.
  - left. reflexivity.
  - left. reflexivity.
  - vm_compute. reflexivity.
  - vm_compute. reflexivity.
Defined.

(** X17: the coil position after a call depends on the step count modulo 4
    only: for [num_steps >= 0] a one-hot coil position ends where
    [num_steps mod 4] steps would take it, so any multiple of four steps (a
    full revolution of 200 steps included) leaves the phase unchanged. *)
Theorem move_stepper_phase_mod4 :
  forall (num_steps direction : Z) (s s' : mcu),
    0 <= num_steps ->
    one_hot4 (coil_position s) ->
    move_stepper_motor_by_step num_steps direction s = Some s' ->
    coil_position s'
    = Nat.iter (Z.to_nat (num_steps mod 4)) (advance direction) (coil_position s).
Proof.
  intros num_steps direction s s' Hn Hhot Hrun.
  apply move_stepper_inv in Hrun. destruct Hrun as (-> & _).
  pose proof (Z.div_mod num_steps 4 ltac:(lia)) as Hdm.
  pose proof (Z.mod_pos_bound num_steps 4 ltac:(lia)) as Hmod.
  assert (0 <= num_steps / 4) by (apply Z.div_pos; lia).
  replace (Z.to_nat num_steps)
    with (4 * Z.to_nat (num_steps / 4) + Z.to_nat (num_steps mod 4))%nat by lia.
  apply iter_advance_mod4. exact Hhot.
Qed.

Lemma move_stepper_phase_mod4_witness :
  exists s',
    move_stepper_motor_by_step 6 1 (power_on (steady 12)) = Some s' /\
    coil_position s' = 4.
Proof.
  eexists. split; [vm_compute; reflexivity |].
  match goal with
  | |- coil_position ?x = _ =>
      rewrite (move_stepper_phase_mod4 6 1 (power_on (steady 12)) x)
  end.
  - reflexivity.
  - lia.
  - left. reflexivity.
  - vm_compute. reflexivity.
Defined.

Lemma drive_pattern p c :
  one_hot4 c ->
  uint8 (Z.lor (uint8 (Z.land p 0x0F)) (int8 (Z.shiftl c 4)))
  = Z.lor (Z.land p 0x0F) (Z.shiftl c 4).
Proof.
  unfold one_hot4. intros [-> | [-> | [-> | ->]]].
  - change (int8 (Z.shiftl 1 4)) with 16. change (Z.shiftl 1 4) with 16. by_bits.
  - change (int8 (Z.shiftl 2 4)) with 32. change (Z.shiftl 2 4) with 32. by_bits.
  - change (int8 (Z.shiftl 4 4)) with 64. change (Z.shiftl 4 4) with 64. by_bits.
  - change (int8 (Z.shiftl 8 4)) with (-128). change (Z.shiftl 8 4) with 128. by_bits.
Qed.

Lemma high_nibble_of_pattern p c :
  Z.shiftr (Z.lor (Z.land p 0x0F) (Z.shiftl c 4)) 4 = c.
Proof.
  rewrite Z.shiftr_lor, Z.shiftr_shiftl_l by lia.
  change (4 - 4) with 0. rewrite Z.shiftl_0_r.
  rewrite Z.shiftr_div_pow2 by lia. change (2 ^ 4) with 16.
  rewrite Z.div_small by apply land_15_range.
  apply Z.lor_0_l.
Qed.

(** X18: the three pin-driving statements of a loop iteration
    ([PORTE &= 0x0F; full_byte=coil_position << 4; PORTE |= full_byte;])
    put exactly the one-hot coil position on PE4-PE7, keep PE0-PE3, and
    write no other register, although the pattern 1000 overflows the signed
    [char] it passes through. *)
Theorem drive_coils_shows_coil :
  forall s : mcu,
    one_hot4 (coil_position s) ->
    PORTE (drive_coils s)
    = Z.lor (Z.land (PORTE s) 0x0F) (Z.shiftl (coil_position s) 4) /\
    Z.shiftr (PORTE (drive_coils s)) 4 = coil_position s /\
    Z.land (PORTE (drive_coils s)) 0x0F = Z.land (PORTE s) 0x0F /\
    set_PORTE (PORTE s) (drive_coils s) = s.
Proof.
  intros s Hhot.
  assert (Hp : PORTE (drive_coils s)
               = Z.lor (Z.land (PORTE s) 0x0F) (Z.shiftl (coil_position s) 4)).
  { unfold drive_coils. cbn [PORTE set_PORTE coil_position].
    apply drive_pattern. exact Hhot. }
  split; [exact Hp |].
  split; [rewrite Hp; apply high_nibble_of_pattern |].
  split.
  - unfold drive_coils. cbn [PORTE set_PORTE coil_position].
    apply drive_coils_low_nibble.
  - destruct s; reflexivity.
Qed.

Lemma drive_coils_shows_coil_witness :
  PORTE (drive_coils (set_coil_position 8 (set_PORTE 0x35 (power_on [])))) = 0x85.
Proof.
  destruct (drive_coils_shows_coil (set_coil_position 8 (set_PORTE 0x35 (power_on []))))
    as (Hp & _).
  - right. right. right. reflexivity.
  - rewrite Hp. reflexivity.
Defined.

(** X19: [wait_ms] starts from scratch: whatever the counter, [OCR2],
    [TCCR2] and the global interrupt flag held before the call has no
    influence on what the call does. *)
Theorem wait_ms_fresh_start :
  forall (time_val : Z) (s : mcu) (tick ocr tccr : Z) (iflag : bool),
    wait_ms time_val
      (set_timer2_tick tick (set_OCR2 ocr (set_TCCR2 tccr (set_SREG_I iflag s))))
    = wait_ms time_val s.
Proof.
  intros time_val s tick ocr tccr iflag.
  rewrite !wait_ms_unfold.
  assert (Harmed : armed time_val
            (set_timer2_tick tick (set_OCR2 ocr (set_TCCR2 tccr (set_SREG_I iflag s))))
          = armed time_val s) by reflexivity.
  rewrite Harmed. reflexivity.
Qed.

(** X20: two waits in a row, under prompt polling, both return and together
    consume exactly the sum of their durations in compare matches. *)
Theorem wait_ms_twice :
  forall (a b : Z) (s : mcu),
    1 <= a < 65536 -> 1 <= b < 65536 ->
    prompt (pending s) = true ->
    a + b <= count_irq (pending s) ->
    exists s1 s2,
      wait_ms a s = Some s1 /\ wait_ms b s1 = Some s2 /\
      prompt (pending s2) = true /\
      count_irq (pending s2) = count_irq (pending s) - (a + b).
Proof.
  intros a b s Ha Hb Hp Hcnt.
  destruct (wait_ms_prompt a s Ha Hp ltac:(lia)) as (used1 & rest1 & Hrun1 & Happ1 & Hu1 & Hp1).
  rewrite Happ1, count_irq_app in Hcnt.
  set (s1 := timer2_stop (set_pending rest1 (set_timer2_tick a (armed a s)))) in *.
  assert (Hpend1 : pending s1 = rest1) by reflexivity.
  destruct (wait_ms_prompt b s1 Hb) as (used2 & rest2 & Hrun2 & Happ2 & Hu2 & Hp2).
  { rewrite Hpend1. exact Hp1. }
  { rewrite Hpend1. lia. }
  exists s1. eexists. split; [exact Hrun1 |]. split; [exact Hrun2 |].
  rewrite Hpend1 in Happ2.
  split; [exact Hp2 |].
  change (count_irq rest2 = count_irq (pending s) - (a + b)).
  rewrite Happ1, Happ2, !count_irq_app. lia.
Qed.

Lemma wait_ms_twice_witness :
  exists s1 s2,
    wait_ms 2 (power_on (steady 6)) = Some s1 /\ wait_ms 3 s1 = Some s2 /\
    count_irq (pending s2) = 1.
Proof.
  destruct (wait_ms_twice 2 3 (power_on (steady 6)))
    as (s1 & s2 & H1 & H2 & _ & Hc).
  - lia.
  - lia.
  - reflexivity.
  - vm_compute. discriminate.
  - exists s1, s2. repeat split; assumption.
Defined.
